(** * The FPC voting engine of goshimmer (package [fpc]), embedded in Rocq

    The embedding follows the source of the package function by function
    ([docker.go] holds it after the Docker helpers, of which the lookup of
    a container by its name is embedded too).  Go panics are
    results of type [run]; Go's [int] is a 64-bit integer whose additions
    and subtractions wrap; [float64] is an interface [Float64] with two
    instances, IEEE binary64 (what the program computes with) and exact
    rationals (what the formulas of the specification denote); Go maps are
    [gmap]s, and a [range] over a map is a fold over its entries, in the
    order in which [map_to_list] lists them (the results do not depend on
    it, see the section on the order in which a map is ranged over). *)

From Stdlib Require Import ZArith QArith Qminmax Lqa PrimFloat Uint63 Permutation.
From stdpp Require Import gmap strings list fin_maps.

Local Open Scope Z_scope.

(** ** Panics *)

(** The run-time panics the engine can raise. *)
Inductive panic : Type :=
  | IntnInvalidArgument   (* rand.Intn(n) with n <= 0 *)
  | IndexOutOfRange       (* s[i] with i outside [0, len(s)) *)
  | SliceBoundsOutOfRange (* s[i:] with i outside [0, len(s)] *)
  | MakeLenOutOfRange.    (* make([]T, n) with n < 0 *)

(** A computation either returns or panics. *)
Inductive run (A : Type) : Type :=
  | Done (r : A)
  | Panics (p : panic).
Arguments Done {A} r.
Arguments Panics {A} p.

Definition run_bind {A B} (c : run A) (f : A → run B) : run B :=
  match c with
  | Done r => f r
  | Panics p => Panics p
  end.

Notation "x <-! c ;; k" := (run_bind c (λ x, k))
  (at level 100, c at next level, right associativity, only parsing).

Definition returns {A} (c : run A) : Prop := ∃ r, c = Done r.

(** A [for] loop whose body may panic, threading an accumulator. *)
Fixpoint foldlM {A B} (f : A → B → run A) (acc : A) (xs : list B) : run A :=
  match xs with
  | [] => Done acc
  | y :: ys => acc' <-! f acc y ;; foldlM f acc' ys
  end.

(** ** Go's [int] *)

Definition int_bits : Z := 64.
Definition max_int : Z := 2 ^ (int_bits - 1) - 1.
Definition min_int : Z := - 2 ^ (int_bits - 1).

(** Two's-complement wrap-around of a mathematical integer into [int]. *)
Definition wrap (z : Z) : Z :=
  (z + 2 ^ (int_bits - 1)) mod 2 ^ int_bits - 2 ^ (int_bits - 1).

Definition int_add (i j : Z) : Z := wrap (i + j).
Definition int_sub (i j : Z) : Z := wrap (i - j).

(** [len(s)]. *)
Definition len {A} (s : list A) : Z := Z.of_nat (length s).

(** [s[i]]. *)
Definition elem_at {A} (s : list A) (i : Z) : run A :=
  if (i <? 0) || (len s <=? i) then Panics IndexOutOfRange
  else match s !! Z.to_nat i with
       | Some v => Done v
       | None => Panics IndexOutOfRange
       end.

(** [s[i:]]. *)
Definition slice_from {A} (s : list A) (i : Z) : run (list A) :=
  if (i <? 0) || (len s <? i) then Panics SliceBoundsOutOfRange
  else Done (drop (Z.to_nat i) s).

(** ** [float64] *)

(** The operations of [float64] the engine uses. *)
Class Float64 (F : Type) : Type := {
  f_add : F → F → F;
  f_sub : F → F → F;
  f_mul : F → F → F;
  f_div : F → F → F;
  f_gtb : F → F → bool;   (* x > y *)
  f_neqb : F → F → bool;  (* x != y *)
  f_of_int : Z → F;       (* float64(n), and the constants 0, 1, -1 *)
}.

(** [float64(n)] for an [int] n, correctly rounded. *)
Definition binary64_of_int (n : Z) : float :=
  if n =? min_int then PrimFloat.opp (PrimFloat.mul 2 (PrimFloat.of_uint63 (Uint63.of_Z (2 ^ 62))))
  else if n <? 0 then PrimFloat.opp (PrimFloat.of_uint63 (Uint63.of_Z (- n)))
  else PrimFloat.of_uint63 (Uint63.of_Z n).

(** IEEE 754 binary64 with round-to-nearest-even: Go's [float64]. *)
#[export] Instance binary64 : Float64 float := {|
  f_add := PrimFloat.add;
  f_sub := PrimFloat.sub;
  f_mul := PrimFloat.mul;
  f_div := PrimFloat.div;
  f_gtb := λ x y, PrimFloat.ltb y x;
  f_neqb := λ x y, negb (PrimFloat.eqb x y);
  f_of_int := binary64_of_int;
|}.

(** Exact arithmetic: the same operations without rounding. *)
#[export] Instance exact : Float64 Q := {|
  f_add := Qplus;
  f_sub := Qminus;
  f_mul := Qmult;
  f_div := Qdiv;
  f_gtb := λ x y, negb (Qle_bool x y);
  f_neqb := λ x y, negb (Qeq_bool x y);
  f_of_int := inject_Z;
|}.

(** ** Data model *)

(** [type ID string]. *)
Abbreviation ID := string.

(** [type Opinions []bool]. *)
Abbreviation Opinions := (list bool).

Definition Like : bool := true.
Definition Dislike : bool := false.

(** [type TxOpinion struct { TxHash ID; Opinion bool }]. *)
Record TxOpinion : Type := mkTxOpinion { TxHash : ID; Opinion : bool }.

(** The value of [errors.New]. *)
Definition error : Type := string.

(** [getLastOpinion]: the last opinion of a list, or [false] and an error. *)
Definition getLastOpinion (list : Opinions) : bool * option error :=
  if 0 <? len list then
    match list !! Z.to_nat (int_sub (len list) 1) with
    | Some o => (o, None)
    | None => (false, Some "opinion is empty"%string)
    end
  else (false, Some "opinion is empty"%string).

(** [isFinal]: the finalization status of a list of opinions; [None] is the
    nil slice. *)
Definition isFinal (o : option Opinions) (m l : Z) : run bool :=
  match o with
  | None => Done false
  | Some o =>
      if len o <? int_add m l then Done false
      else
        finalProposal <-! elem_at o (int_sub (len o) l) ;;
        rest <-! slice_from o (int_add (int_sub (len o) l) 1) ;;
        Done (forallb (λ opinion, eqb opinion finalProposal) rest)
  end.

(** The condition of [getFinalizedTxs]: [isFinal(history[1:], m, l)], the
    first opinion being the initial one. *)
Definition isFinal_from1 (history : Opinions) (m l : Z) : run bool :=
  tail <-! slice_from history 1 ;;
  isFinal (Some tail) m l.

(** ** The opinion history store *)

(** Modelled from the spec: the type [OpinionMap] behind
    [fpc.state.opinionHistory] and its method [Load] are not among the
    sources.  Section 4.1: "load(tx) -> history?".  The history and [ok] are
    an option. *)
Definition Load (tx : ID) (om : gmap ID Opinions) : option Opinions := om !! tx.

(** Modelled from the spec: the method [Store] of [OpinionMap] is not among
    the sources.  Section 4.1: "store(tx, opinion) (appends)". *)
Definition Store (tx : ID) (opinion : bool) (om : gmap ID Opinions) : gmap ID Opinions :=
  <[tx := default [] (om !! tx) ++ [opinion]]> om.

(** Modelled from the spec: the method [Delete] of [OpinionMap] is not among
    the sources.  Section 4.1: "delete(tx)". *)
Definition Delete (tx : ID) (om : gmap ID Opinions) : gmap ID Opinions := delete tx om.

Section Engine.
Context {F : Type} `{!Float64 F}.

(** [type etaResult struct { value float64; count int }]. *)
Record etaResult : Type := mkEtaResult { value : F; count : Z }.

(** [type tick struct { index uint64; x float64 }]. *)
Record tick : Type := mkTick { tick_index : Z; tick_x : F }.

(** [newTick]. *)
Definition newTick (index : Z) (random : F) : tick := mkTick index random.

(** Modelled from the spec: the type [Parameters] is not among the sources.
    Section 3: "k: query fanout", "a, b: lower/upper bounds for the
    first-round threshold", "beta", "m: cooldown length", "l: stability
    window". *)
Record Parameters : Type := mkParameters {
  p_k : Z; p_a : F; p_b : F; p_beta : F; p_m : Z; p_l : Z
}.

(** Modelled from the spec: the type [context] behind [fpc.state] is not
    among the sources; its fields are the ones the package reads and
    writes. *)
Record context : Type := mkContext {
  opinionHistory : gmap ID Opinions;
  activeTxs : gmap ID etaResult;
  waitingTxs : list TxOpinion;
  parameters : Parameters;
  ctx_tick : tick
}.

Definition set_opinionHistory (om : gmap ID Opinions) (st : context) : context :=
  mkContext om (activeTxs st) (waitingTxs st) (parameters st) (ctx_tick st).
Definition set_activeTxs (act : gmap ID etaResult) (st : context) : context :=
  mkContext (opinionHistory st) act (waitingTxs st) (parameters st) (ctx_tick st).
Definition set_waitingTxs (w : list TxOpinion) (st : context) : context :=
  mkContext (opinionHistory st) (activeTxs st) w (parameters st) (ctx_tick st).
Definition set_tick (t : tick) (st : context) : context :=
  mkContext (opinionHistory st) (activeTxs st) (waitingTxs st) (parameters st) t.

(** Modelled from the spec: [newContext] is not among the sources; a new
    engine has empty sets and an empty history store. *)
Definition newContext (p : Parameters) : context :=
  mkContext ∅ ∅ [] p (newTick 0 (f_of_int 0)).

(** Modelled from the spec: [pushTxs] is not among the sources.  Section
    4.2: "push(tx, initial) appends to WaitingSet". *)
Definition pushTxs (txs : list TxOpinion) (st : context) : context :=
  set_waitingTxs (waitingTxs st ++ txs) st.

(** Modelled from the spec: the body of [popTxs], which is not among the
    sources, for one waiting tx.  A tx that was active when the round began
    is ignored; any other enters ActiveSet with [{-1, 0}] and a history
    holding its initial opinion, a later submission overriding an earlier
    one (section 4.2, quoted below). *)
Definition promote (active0 : gmap ID etaResult) (st : context) (newTx : TxOpinion) : context :=
  match active0 !! TxHash newTx with
  | Some _ => st
  | None =>
      set_activeTxs (<[TxHash newTx := mkEtaResult (f_of_int (-1)) 0]> (activeTxs st))
        (set_opinionHistory (<[TxHash newTx := [Opinion newTx]]> (opinionHistory st)) st)
  end.

(** Modelled from the spec: [popTxs] is not among the sources.  Section 4.2:
    "promote() drains WaitingSet, inserts each tx into ActiveSet with
    EtaResult {value: -1, count: 0}, and initializes its OpinionHistory with
    a single entry equal to the submitted initial opinion.  If a tx is
    submitted twice before promotion, the later submission overrides the
    initial opinion (last-write-wins); a tx already in ActiveSet is ignored
    by promote (idempotent)." *)
Definition popTxs (st : context) : context :=
  set_waitingTxs [] (foldl (promote (activeTxs st)) st (waitingTxs st)).

(** Modelled from the spec: [getActiveTxs] is not among the sources; it
    lists the ids of ActiveSet (section 4.6, step 4), here in the order in
    which the map enumerates them. *)
Definition getActiveTxs (st : context) : list ID := (map_to_list (activeTxs st)).*1.

(** [runif]: the threshold between a lower and an upper bound. *)
Definition runif (rand thresholdL thresholdU : F) : F :=
  f_add thresholdL (f_mul rand (f_sub thresholdU thresholdL)).

(** The threshold [updateOpinion] computes for a tx with the given
    history: from [a] and [b] in the first round, from [beta] after. *)
Definition threshold (st : context) (history : Opinions) : F :=
  if len history =? 1
  then runif (tick_x (ctx_tick st)) (p_a (parameters st)) (p_b (parameters st))
  else runif (tick_x (ctx_tick st)) (p_beta (parameters st))
             (f_sub (f_of_int 1) (p_beta (parameters st))).

(** The body of the loop of [updateOpinion], for one entry of
    [activeTxs]. *)
Definition updateOpinion_body (st : context) (om : gmap ID Opinions)
    (entry : ID * etaResult) : gmap ID Opinions :=
  match Load entry.1 om with
  | Some history =>
      if f_neqb (value entry.2) (f_of_int (-1)) then
        let newOpinion := f_gtb (value entry.2) (threshold st history) in
        Store entry.1 newOpinion om
      else om
  | None => om
  end.

(** [updateOpinion]: the loop over [activeTxs]. *)
Definition updateOpinion (st : context) : context :=
  set_opinionHistory
    (foldl (updateOpinion_body st) (opinionHistory st) (map_to_list (activeTxs st))) st.

(** The state [getFinalizedTxs] works on: the batch so far, the history
    store and ActiveSet. *)
Definition finalizing : Type := list TxOpinion * gmap ID Opinions * gmap ID etaResult.

(** The body of the loop of [getFinalizedTxs], for one key of
    [activeTxs]. *)
Definition getFinalizedTxs_body (p : Parameters) (acc : finalizing) (tx : ID) : run finalizing :=
  let history := default [] (Load tx acc.1.2) in
  final <-! isFinal_from1 history (p_m p) (p_l p) ;;
  if final : bool then
    let lastOpinion := fst (getLastOpinion history) in
    Done (acc.1.1 ++ [mkTxOpinion tx lastOpinion], Delete tx acc.1.2, delete tx acc.2)
  else Done acc.

(** [getFinalizedTxs]: the finalized batch and the state without the
    finalized txs. *)
Definition getFinalizedTxs (st : context) : run (list TxOpinion * context) :=
  acc <-! foldlM (getFinalizedTxs_body (parameters st))
            ([], opinionHistory st, activeTxs st) (map_to_list (activeTxs st)).*1 ;;
  Done (acc.1.1, set_activeTxs acc.2 (set_opinionHistory acc.1.2 st)).

(** [rand.Intn(n)] on a source whose next draw is [r]: some value of
    [[0, n)], and a panic when [n <= 0]. *)
Definition Intn (r : Z) (n : Z) : run Z :=
  if n <=? 0 then Panics IntnInvalidArgument else Done (r mod n).

(** [choose]: [k] nodes of [list_], drawn with replacement; [rnd i] is the
    draw of the time-seeded source at iteration [i]. *)
Definition choose (rnd : nat → Z) (list_ : list string) (k : Z) : run (list string) :=
  if k <? 0 then Panics MakeLenOutOfRange
  else
    foldlM (λ chosen i,
              j <-! Intn (rnd i) (len list_) ;;
              node <-! elem_at list_ j ;;
              Done (<[i := node]> chosen))
           (replicate (Z.to_nat k) ""%string) (seq 0 (Z.to_nat k)).

(** [type etaMap map[ID]*etaResult]. *)
Definition newEtaMap : gmap ID etaResult := ∅.

(** The body of the first loop of [calculateEtas], for one vote. *)
Definition calculateEtas_body (allEtas : gmap ID etaResult) (vote : TxOpinion)
    : gmap ID etaResult :=
  let allEtas :=
    match allEtas !! TxHash vote with
    | None => <[TxHash vote := mkEtaResult (f_of_int 0) 0]> allEtas
    | Some _ => allEtas
    end in
  let allEtas :=
    if Opinion vote
    then alter (λ e, mkEtaResult (f_add (value e) (f_of_int 1)) (count e)) (TxHash vote) allEtas
    else allEtas in
  alter (λ e, mkEtaResult (value e) (int_add (count e) 1)) (TxHash vote) allEtas.

(** [calculateEtas]: the votes tallied per tx, then every value divided by
    its count. *)
Definition calculateEtas (votes : list TxOpinion) : gmap ID etaResult :=
  let allEtas := foldl calculateEtas_body ∅ votes in
  (λ e, mkEtaResult (f_div (value e) (f_of_int (count e))) (count e)) <$> allEtas.

(** The inner loop of [querySample]: the votes of one response attributed
    to [txs] by position. *)
Definition attribute (txs : list ID) (result : list TxOpinion) (votes : Opinions)
    : run (list TxOpinion) :=
  foldlM (λ result (iv : nat * bool),
            tx <-! elem_at txs (Z.of_nat iv.1) ;;
            Done (result ++ [mkTxOpinion tx iv.2]))
         result (imap pair votes).

(** The merging loop of [querySample] over the responses received. *)
Definition merge (txs : list ID) (responses : list Opinions) : run (list TxOpinion) :=
  foldlM (λ result votes,
            if 0 <? len votes then attribute txs result votes else Done result)
         [] responses.

(** [querySample]: [k] nodes are chosen and queried; the [k] responses are
    read from the channel (here in the order of the chosen nodes), merged
    and aggregated. *)
Definition querySample (rnd : nat → Z) (txs : list ID) (k : Z) (nodes : list string)
    (qn : list ID → string → Opinions) : run (gmap ID etaResult) :=
  selectedNodes <-! choose rnd nodes k ;;
  result <-! merge txs (map (qn txs) selectedNodes) ;;
  Done (calculateEtas result).

(** What a round obtains from outside the engine: the peers that
    [getKnownPeers()] returns, the answers of [queryNode], and the draws of
    the random source of [choose]. *)
Record collaborators : Type := mkCollaborators {
  getKnownPeers : list string;
  queryNode : list ID → string → Opinions;
  rand_source : nat → Z
}.

(** The last loop of [round]: every eta of the sample is written into
    [activeTxs]. *)
Definition storeEtas (etas active : gmap ID etaResult) : gmap ID etaResult :=
  foldl (λ active (entry : ID * etaResult), <[entry.1 := entry.2]> active)
        active (map_to_list etas).

(** [round]: one FPC round. *)
Definition round (w : collaborators) (st : context) : run (list TxOpinion * context) :=
  let st := popTxs st in
  let st := updateOpinion st in
  fin <-! getFinalizedTxs st ;;
  let st := fin.2 in
  etas <-! querySample (rand_source w) (getActiveTxs st) (p_k (parameters st))
             (getKnownPeers w) (queryNode w) ;;
  Done (fin.1, set_activeTxs (storeEtas etas (activeTxs st)) st).

(** [SubmitTxsForVoting]. *)
Definition SubmitTxsForVoting (txs : list TxOpinion) (st : context) : context :=
  pushTxs txs st.

(** [Tick]: the tick is stored and a round is run; the batch is what the
    round sends on the finalized channel. *)
Definition Tick (w : collaborators) (index : Z) (random : F) (st : context)
    : run (list TxOpinion * context) :=
  round w (set_tick (newTick index random) st).

(** [GetInterimOpinion]: the current opinions of the given txs. *)
Definition GetInterimOpinion (st : context) (txs : list ID) : Opinions :=
  foldl (λ result (itx : nat * ID),
           match Load itx.2 (opinionHistory st) with
           | Some history => <[itx.1 := fst (getLastOpinion history)]> result
           | None => result
           end)
        (replicate (length txs) false) (imap pair txs).

(** A tick as the host delivers it, with what the collaborators answer
    during its round. *)
Record tick_event : Type := mkTickEvent {
  ev_world : collaborators; ev_index : Z; ev_random : F
}.

(** Ticks driven one after the other: the batches sent on the finalized
    channel, in order, and the final state. *)
Fixpoint run_ticks (evs : list tick_event) (st : context)
    : run (list (list TxOpinion) * context) :=
  match evs with
  | [] => Done ([], st)
  | ev :: evs =>
      r <-! Tick (ev_world ev) (ev_index ev) (ev_random ev) st ;;
      rs <-! run_ticks evs r.2 ;;
      Done (r.1 :: rs.1, rs.2)
  end.
End Engine.

Arguments etaResult F : clear implicits.
Arguments tick F : clear implicits.
Arguments Parameters F : clear implicits.
Arguments context F : clear implicits.
Arguments collaborators : clear implicits.
Arguments tick_event F : clear implicits.
Arguments finalizing F : clear implicits.

(** ** The host

    What the host of an engine does with it, one call after the other:
    [SubmitTxsForVoting] and [Tick]. *)

Section Host.
Context {F : Type} `{!Float64 F}.

(** A call of the host. *)
Inductive call : Type :=
  | Submit (txs : list TxOpinion)
  | Ticking (ev : tick_event F).

(** The calls made in order: the batches the ticks sent on the finalized
    channel and the final state. *)
Fixpoint run_calls (calls : list call) (st : context F)
    : run (list (list TxOpinion) * context F) :=
  match calls with
  | [] => Done ([], st)
  | Submit txs :: calls => run_calls calls (SubmitTxsForVoting txs st)
  | Ticking ev :: calls =>
      r <-! Tick (ev_world ev) (ev_index ev) (ev_random ev) st ;;
      rs <-! run_calls calls r.2 ;;
      Done (r.1 :: rs.1, rs.2)
  end.
End Host.

Arguments call F : clear implicits.

(** ** Docker containers *)

Section Docker.
(** [*client.Client]: the handle of the Docker daemon. *)
Context {Client : Type}.

(** [type DockerContainer struct { client *client.Client; id string }];
    the field [id] is [container_id] here, [id] being the identity
    function. *)
Record DockerContainer : Type := mkDockerContainer { client : Client; container_id : string }.

(** [NewDockerContainer]. *)
Definition NewDockerContainer (c : Client) : DockerContainer := mkDockerContainer c "".

(** The fields of [types.Container] that are read. *)
Record Container : Type := mkContainer { Names : list string; ID_ : string }.

(** The loop of [NewDockerContainerFromExisting] over the containers
    listed, and the error after it. *)
Fixpoint find_existing (c : Client) (name : string) (containers : list Container)
    : run (option DockerContainer * option error) :=
  match containers with
  | [] =>
      Done (None, Some ("could not find container with name '" +:+ name +:+ "'")%string)
  | cont :: containers =>
      first <-! elem_at (Names cont) 0 ;;
      if String.eqb first name
      then Done (Some (mkDockerContainer c (ID_ cont)), None)
      else find_existing c name containers
  end.

(** [NewDockerContainerFromExisting]; [listed] is what [c.ContainerList]
    returns, the containers and the error. *)
Definition NewDockerContainerFromExisting (c : Client)
    (listed : list Container * option error) (name : string)
    : run (option DockerContainer * option error) :=
  match listed.2 with
  | Some err => Done (None, Some err)
  | None => find_existing c name listed.1
  end.
End Docker.

Arguments DockerContainer Client : clear implicits.

(** * Vocabulary of the properties *)

Section Vocabulary.
Context {F : Type} `{!Float64 F}.

(** The last [l] entries of a history. *)
Definition last_entries (l : Z) (o : Opinions) : Opinions :=
  drop (length o - Z.to_nat l) o.

(** All entries of a list of opinions are the same. *)
Definition identical (s : Opinions) : Prop := ∀ v w, v ∈ s → w ∈ s → v = w.

(** What [GetInterimOpinion] writes at the position of [tx]: the last
    opinion of its history, or the zero value the result was made with. *)
Definition interim (st : context F) (tx : ID) : bool :=
  match Load tx (opinionHistory st) with
  | Some history => (getLastOpinion history).1
  | None => false
  end.

(** What the update phase makes of the history of a tx, given its entry of
    ActiveSet (if any) and its history (if any). *)
Definition updated (st : context F) (eta : option (etaResult F)) (history : option Opinions)
    : option Opinions :=
  match eta, history with
  | Some eta, Some history =>
      if f_neqb (value eta) (f_of_int (-1))
      then Some (history ++ [f_gtb (value eta) (threshold st history)])
      else Some history
  | _, _ => history
  end.

(** [value++] repeated [n] times on the zero value. *)
Definition f_count (n : nat) : F := Nat.iter n (λ v, f_add v (f_of_int 1)) (f_of_int 0).

(** [count++] repeated [n] times on the zero value. *)
Definition int_count (n : nat) : Z := Nat.iter n (λ c, int_add c 1) 0.

(** The opinions voted on [tx], in order. *)
Definition votes_on (tx : ID) (votes : list TxOpinion) : Opinions :=
  Opinion <$> filter (λ vote, TxHash vote = tx) votes.

(** The number of positive opinions. *)
Definition positives (opinions : Opinions) : nat := length (filter (λ o, o = true) opinions).

(** The tally of one tx after one more vote on it. *)
Definition tally_vote (cur : option (etaResult F)) (opinion : bool) : option (etaResult F) :=
  let e := default (mkEtaResult (f_of_int 0) 0) cur in
  Some (mkEtaResult (if opinion then f_add (value e) (f_of_int 1) else value e)
                    (int_add (count e) 1)).

(** The eta of a tx from the opinions voted on it: none without a vote,
    else the positive votes, counted in float64, divided by the float64 of
    the [int] count. *)
Definition eta_of (opinions : Opinions) : option (etaResult F) :=
  match opinions with
  | [] => None
  | _ =>
      Some (mkEtaResult
              (f_div (f_count (positives opinions)) (f_of_int (int_count (length opinions))))
              (int_count (length opinions)))
  end.

(** A tx is retired when no set nor the history store refers to it and
    nothing waits for promotion. *)
Definition retired (tx : ID) (st : context F) : Prop :=
  waitingTxs st = [] ∧ activeTxs st !! tx = None ∧ opinionHistory st !! tx = None.

(** Every tx of ActiveSet has a history, and the history satisfies [P]. *)
Definition histories_satisfy (P : Opinions → Prop) (st : context F) : Prop :=
  ∀ tx, is_Some (activeTxs st !! tx) →
    ∃ history, opinionHistory st !! tx = Some history ∧ P history.

(** Every tx of ActiveSet has a non-empty history: the first invariant of
    the data model. *)
Definition active_have_history (st : context F) : Prop :=
  histories_satisfy (λ history, history ≠ []) st.

(** Every tx of ActiveSet has a non-empty history, of a length an [int] can
    still count one past. *)
Definition histories_present (st : context F) : Prop :=
  histories_satisfy (λ history, history ≠ [] ∧ len history < max_int) st.

(** Two states of the finalization loop that differ in the order of the
    batch only. *)
Definition same_but_batch_order (acc acc' : finalizing F) : Prop :=
  acc.1.1 ≡ₚ acc'.1.1 ∧ acc.1.2 = acc'.1.2 ∧ acc.2 = acc'.2.

(** The engine knows nothing of a tx: it is not waiting, not in ActiveSet
    and has no history. *)
Definition forgotten (tx : ID) (st : context F) : Prop :=
  (tx ∉ TxHash <$> waitingTxs st) ∧ activeTxs st !! tx = None ∧ opinionHistory st !! tx = None.

(** The history store and ActiveSet hold the same txs, and no stored
    history is empty. *)
Definition store_consistent (st : context F) : Prop :=
  (∀ tx, is_Some (activeTxs st !! tx) ↔ is_Some (opinionHistory st !! tx))
  ∧ ∀ tx history, opinionHistory st !! tx = Some history → history ≠ [].

(** Every stored history has a length an [int] can still count one past. *)
Definition histories_fit (st : context F) : Prop :=
  ∀ tx history, opinionHistory st !! tx = Some history → len history < max_int.

(** A history the finalization rule accepts: [m + l] decisions after the
    initial opinion, the last [l] entries the same. *)
Definition stable (m l : Z) (history : Opinions) : Prop :=
  m + l + 1 ≤ len history ∧ identical (last_entries l history).

(** The cooldown and the window are as the specification requires, and
    their sum is an [int]. *)
Definition valid_window (p : Parameters F) : Prop :=
  0 ≤ p_m p ∧ 1 ≤ p_l p ∧ p_m p + p_l p ≤ max_int.
End Vocabulary.

(** The node [choose] puts at position [i]: the one at the index that the
    [i]-th draw gives. *)
Definition draw (rnd : nat → Z) (list_ : list string) (i : nat) : string :=
  nth (Z.to_nat (rnd i mod len list_)) list_ ""%string.

(** A container that has a first name, which is not [name]. *)
Definition named_otherwise (name : string) (cont : Container) : Prop :=
  ∃ first, head (Names cont) = Some first ∧ first ≠ name.

(** Peers are known, and every node answers [v] for every tx it is asked
    about. *)
Definition unanimous (v : bool) (w : collaborators) : Prop :=
  getKnownPeers w ≠ [] ∧ ∀ txs node, queryNode w txs node = (λ _, v) <$> txs.

(** The random value [x] puts both thresholds in [[0, 1)]. *)
Definition moderate (p : Parameters Q) (x : Q) : Prop :=
  (0 <= runif x (p_a p) (p_b p))%Q ∧ (runif x (p_a p) (p_b p) < 1)%Q
  ∧ (0 <= runif x (p_beta p) (f_sub (f_of_int 1) (p_beta p)))%Q
  ∧ (runif x (p_beta p) (f_sub (f_of_int 1) (p_beta p)) < 1)%Q.

(** The votes for position [i] in the responses that reach it. *)
Definition reaching (i : nat) (responses : list Opinions) : Opinions :=
  omap (λ votes : Opinions, votes !! i) responses.

(** * Scenarios *)

(** The parameters and the history of scenario S1 of the specification, at
    the tick that finalizes. *)
Definition params_S1 : Parameters Q := mkParameters 3 (1#2) (1#2) (3#10) 2 3.
Definition finalizing_S1 : finalizing Q :=
  ([], {["T"%string := replicate 6 Like]}, {["T"%string := mkEtaResult (1:Q) 3]}).

(** A state in which tx "T" is under vote with the given history, and one in
    which nothing was ever submitted. *)
Definition voting_T (history : Opinions) : context Q :=
  mkContext {["T"%string := history]} {["T"%string := mkEtaResult (1:Q) 3]} [] params_S1
    (newTick 0 (1#2)).
Definition fresh_S1 : context Q := newContext params_S1.



(** A state of the exact engine in which "T" has had one round and half of
    the peers liked it, at a tick with [x = 1/2]: the threshold is
    [3/10 + 1/2 (7/10 - 3/10) = 1/2], a tie. *)
Definition state_tie : context Q :=
  mkContext {["T"%string := [Like; Like]]} {["T"%string := mkEtaResult (1#2) 4]} []
    params_S1 (newTick 1 (1#2)).

(** The same tie on float64: [beta = 0.05] (its nearest binary64 value),
    [x = 0.5], and two of four peers liked "T". *)
Definition state_tie_binary64 : context float :=
  mkContext {["T"%string := [Like; Like]]} {["T"%string := mkEtaResult 0.5%float 4]} []
    (mkParameters 4 0.5%float 0.5%float 0x1.999999999999ap-5%float 2 3)
    (newTick 1 0.5%float).

(** Four votes: two Likes and a Dislike on "T", a Dislike on "U". *)
Definition four_votes : list TxOpinion :=
  [mkTxOpinion "T" Like; mkTxOpinion "U" Dislike; mkTxOpinion "T" Dislike; mkTxOpinion "T" Like].

(** Scenario S3 of the specification: [k = 5], no peer, "T" submitted with
    Like. *)
Definition params_S3 : Parameters Q := mkParameters 5 (1#2) (1#2) (3#10) 2 3.
Definition no_peers : collaborators := mkCollaborators [] (λ txs _, (λ _, Like) <$> txs) (λ i, Z.of_nat i).
Definition submitted_S3 : context Q :=
  SubmitTxsForVoting [mkTxOpinion "T" Like] (newContext params_S3).

(** Two txs under vote; the single peer answers for the first tx asked
    only, which is "U". *)
Definition two_active : context Q :=
  mkContext {["T"%string := [Like; Like]; "U"%string := [Like; Dislike]]}
    {["T"%string := mkEtaResult (1#3) 3; "U"%string := mkEtaResult (1:Q) 3]} []
    params_S1 (newTick 2 (1#2)).
Definition first_only : collaborators :=
  mkCollaborators ["n1"%string] (λ txs _, [Like]) (λ i, Z.of_nat i).
Definition after_first_only : context Q :=
  match round first_only two_active with
  | Done r => r.2
  | Panics _ => two_active
  end.

(** Scenario S1 of the specification: every peer likes "T", every tick
    carries [x = 1/2]. *)
Definition likes : collaborators :=
  mkCollaborators ["n1"; "n2"]%string (λ txs _, (λ _, Like) <$> txs) (λ i, Z.of_nat i).
Definition submitted_S1 : context Q :=
  SubmitTxsForVoting [mkTxOpinion "T" Like] (newContext params_S1).
Definition tick_S1 : tick_event Q := mkTickEvent likes 0 (1#2).

(** The state of S1 after five ticks, and after the sixth, which
    finalizes "T". *)
Definition before_final_S1 : context Q :=
  match run_ticks (replicate 5 tick_S1) submitted_S1 with
  | Done r => r.2
  | Panics _ => submitted_S1
  end.
Definition after_final_S1 : context Q :=
  match round likes before_final_S1 with
  | Done r => r.2
  | Panics _ => before_final_S1
  end.

(** "T" after its promotion, three quarters of the peers having liked it,
    with [a = 0] and [b = 1/2]. *)
Definition state_three_quarters : context Q :=
  mkContext {["T"%string := [Like]]} {["T"%string := mkEtaResult (3#4) 4]} []
    (mkParameters 3 (0:Q) (1#2) (3#10) 2 3) (newTick 0 (1#2)).

(** Two txs ready to be finalized, "T" with Like and "U" with Dislike. *)
Definition finalizing_two : finalizing Q :=
  ([], {["T"%string := replicate 6 Like; "U"%string := replicate 6 Dislike]},
   {["T"%string := mkEtaResult (1:Q) 3; "U"%string := mkEtaResult (0:Q) 3]}).

(** Scenario S1 on float64, with [beta = 0.3] as its nearest binary64
    value. *)
Definition params_S1_binary64 : Parameters float :=
  mkParameters 3 0.5%float 0.5%float 0x1.3333333333333p-2%float 2 3.
Definition submitted_S1_binary64 : context float :=
  SubmitTxsForVoting [mkTxOpinion "T" Like] (newContext params_S1_binary64).
Definition tick_S1_binary64 : tick_event float := mkTickEvent likes 0 0.5%float.

(** Scenario S2 of the specification: the peers like "T" unanimously in one
    round and dislike it unanimously in the next. *)
Definition dislikes : collaborators :=
  mkCollaborators ["n1"; "n2"]%string (λ txs _, (λ _, Dislike) <$> txs) (λ i, Z.of_nat i).
Definition ticks_S2 : list (tick_event float) :=
  mjoin (replicate 50 [tick_S1_binary64; mkTickEvent dislikes 0 0.5%float]).

(** Three containers as the daemon lists them, the last without a name. *)
Definition listed_three : list Container :=
  [mkContainer ["/entry"]%string "c1"; mkContainer ["/peer"; "/alias"]%string "c2";
   mkContainer [] "c3"].

(** S1 with a submission of "U" after the first of six ticks. *)
Definition calls_S1_and_U : list (call Q) :=
  Ticking tick_S1 :: Submit [mkTxOpinion "U" Like] :: replicate 5 (Ticking tick_S1).
Definition after_S1_and_U : context Q :=
  match run_calls calls_S1_and_U submitted_S1 with
  | Done r => r.2
  | Panics _ => submitted_S1
  end.

(** S1 after its first tick. *)
Definition calls_S1 : list (call Q) := [Submit [mkTxOpinion "T" Like]; Ticking tick_S1].
Definition after_first_tick_S1 : context Q :=
  match run_calls calls_S1 (newContext params_S1) with
  | Done r => r.2
  | Panics _ => newContext params_S1
  end.

(** * Properties *)

(** Membership in an explicit list, case by case. *)
Ltac elem_cases H :=
  repeat (apply elem_of_cons in H as [H|H]; [subst|]); try (by apply elem_of_nil in H).

(** ** The [run] monad, [int] and slices *)

Lemma run_bind_Done {A B} (c : run A) (f : A → run B) (r : B) :
  run_bind c f = Done r ↔ ∃ a, c = Done a ∧ f a = Done r.
Proof.
  destruct c as [a|p]; simpl.
  - split; [eauto|]. intros (a' & [= <-] & ?); done.
  - split; [done|]. intros (? & ? & ?); done.
Qed.

Lemma wrap_id (z : Z) : min_int ≤ z ≤ max_int → wrap z = z.
Proof.
  unfold wrap, min_int, max_int, int_bits. intros Hz.
  rewrite Z.mod_small; lia.
Qed.

Lemma min_int_neg : min_int < 0.
Proof. reflexivity. Qed.

Lemma len_nonneg {A} (s : list A) : 0 ≤ len s.
Proof. unfold len. lia. Qed.

Lemma len_cons {A} (v : A) (s : list A) : len (v :: s) = len s + 1.
Proof. unfold len. simpl. lia. Qed.

Lemma len_app {A} (s t : list A) : len (s ++ t) = len s + len t.
Proof. unfold len. rewrite length_app. lia. Qed.

Lemma elem_at_in_range {A} (s : list A) (i : Z) :
  0 ≤ i < len s → ∃ v, s !! Z.to_nat i = Some v ∧ elem_at s i = Done v.
Proof.
  intros Hi. unfold elem_at.
  destruct (s !! Z.to_nat i) as [v|] eqn:Hv.
  - exists v. split; [done|].
    replace (i <? 0) with false by lia. replace (len s <=? i) with false by lia. done.
  - apply lookup_ge_None in Hv. unfold len in Hi. lia.
Qed.

Lemma elem_at_out_of_range {A} (s : list A) (i : Z) :
  len s ≤ i → elem_at s i = Panics IndexOutOfRange.
Proof.
  intros Hi. unfold elem_at. replace (len s <=? i) with true by lia.
  by rewrite orb_true_r.
Qed.

Lemma slice_from_in_range {A} (s : list A) (i : Z) :
  0 ≤ i ≤ len s → slice_from s i = Done (drop (Z.to_nat i) s).
Proof.
  intros Hi. unfold slice_from.
  replace (i <? 0) with false by lia. replace (len s <? i) with false by lia. done.
Qed.

(** ** The finalization rule *)

Lemma forallb_eqb_identical (v : bool) (rest : Opinions) :
  forallb (λ opinion, eqb opinion v) rest = true ↔ identical (v :: rest).
Proof.
  rewrite forallb_forall. split.
  - intros Hall.
    assert (∀ u, u ∈ v :: rest → u = v) as Hv.
    { intros u [->|Hu]%elem_of_cons; [done|].
      apply eqb_prop, Hall. by apply list_elem_of_In. }
    intros u w Hu Hw. rewrite (Hv u Hu), (Hv w Hw). done.
  - intros Hid u Hu%list_elem_of_In.
    rewrite (Hid u v); [by destruct v| by right | by left].
Qed.

(** [isFinal] on a non-nil slice, when [m + l] does not overflow. *)
Lemma isFinal_spec (o : Opinions) (m l : Z) :
  len o ≤ max_int → 0 ≤ m → 1 ≤ l → m + l ≤ max_int →
  ∃ final, isFinal (Some o) m l = Done final ∧
    (final = true ↔ m + l ≤ len o ∧ identical (last_entries l o)).
Proof.
  intros Ho Hm Hl Hml. pose proof min_int_neg as Hmin. pose proof (len_nonneg o) as Hlen.
  unfold isFinal, int_add, int_sub. rewrite (wrap_id (m + l)) by lia.
  destruct (len o <? m + l) eqn:Hlt.
  - exists false. split; [done|]. split; [done|]. lia.
  - apply Z.ltb_ge in Hlt.
    rewrite (wrap_id (len o - l)) by lia. rewrite (wrap_id (len o - l + 1)) by lia.
    destruct (elem_at_in_range o (len o - l)) as (v & Hv & ->); [lia|]. simpl.
    rewrite slice_from_in_range by lia. simpl.
    eexists. split; [done|].
    rewrite forallb_eqb_identical.
    assert (last_entries l o = v :: drop (Z.to_nat (len o - l + 1)) o) as ->.
    { unfold last_entries.
      replace (length o - Z.to_nat l)%nat with (Z.to_nat (len o - l)) by (unfold len; lia).
      replace (Z.to_nat (len o - l + 1)) with (S (Z.to_nat (len o - l))) by lia.
      by apply drop_S. }
    tauto.
Qed.

(** The condition of [getFinalizedTxs] on a history that holds its initial
    opinion. *)
Lemma isFinal_from1_spec (o : Opinions) (m l : Z) :
  o ≠ [] → len o ≤ max_int → 0 ≤ m → 1 ≤ l → m + l ≤ max_int →
  ∃ final, isFinal_from1 o m l = Done final ∧
    (final = true ↔ m + l + 1 ≤ len o ∧ identical (last_entries l o)).
Proof.
  intros Hne Ho Hm Hl Hml. destruct o as [|v0 t]; [done|].
  unfold isFinal_from1. rewrite slice_from_in_range by (rewrite len_cons; pose proof (len_nonneg t); lia).
  cbn [run_bind]. change (drop (Z.to_nat 1) (v0 :: t)) with t. rewrite len_cons in *.
  destruct (isFinal_spec t m l) as (final & -> & Hfinal); [lia..|].
  exists final. split; [done|]. rewrite Hfinal.
  split; intros [Hlen Hid]; (split; [lia|]).
  - unfold last_entries in *. simpl.
    replace (S (length t) - Z.to_nat l)%nat with (S (length t - Z.to_nat l)); [done|].
    unfold len in Hlen. lia.
  - unfold last_entries in *. simpl in Hid.
    replace (S (length t) - Z.to_nat l)%nat with (S (length t - Z.to_nat l)) in Hid; [done|].
    unfold len in Hlen. lia.
Qed.

(** Where a non-empty window lies within the history, its last entry is the
    history's last opinion. *)
Lemma getLastOpinion_last_entries (o : Opinions) (l : Z) :
  1 ≤ l → l ≤ len o → len o ≤ max_int →
  fst (getLastOpinion o) ∈ last_entries l o.
Proof.
  intros Hl Hlo Ho. pose proof min_int_neg. unfold getLastOpinion, int_sub.
  replace (0 <? len o) with true by lia.
  rewrite wrap_id by lia.
  destruct (o !! Z.to_nat (len o - 1)) as [v|] eqn:Hv.
  - simpl. unfold last_entries. apply list_elem_of_lookup.
    exists (Z.to_nat l - 1)%nat. rewrite lookup_drop. rewrite <- Hv. f_equal.
    unfold len in *. lia.
  - apply lookup_ge_None in Hv. unfold len in *. lia.
Qed.

Section FinalizationRule.
Context {F : Type} `{!Float64 F}.

(** C2 (amended): for a tx whose history [o] holds its initial opinion, and
    parameters [m >= 0], [l >= 1] whose sum [m + l] does not overflow Go's
    [int], the finalization step of [getFinalizedTxs] fires if and only if
    [|o| >= m + l + 1] and the last [l] entries of [o] are identical; when
    it fires the emitted opinion is that constant value of the tail, and
    the tx leaves the history store and ActiveSet; when it does not fire
    nothing changes. *)
Theorem finalization_fires_iff_stable_tail (p : Parameters F) (acc : finalizing F)
    (tx : ID) (o : Opinions) :
  acc.1.2 !! tx = Some o → o ≠ [] → len o ≤ max_int →
  0 ≤ p_m p → 1 ≤ p_l p → p_m p + p_l p ≤ max_int →
  (p_m p + p_l p + 1 ≤ len o ∧ identical (last_entries (p_l p) o) →
     ∃ v, v ∈ last_entries (p_l p) o ∧
       getFinalizedTxs_body p acc tx
       = Done (acc.1.1 ++ [mkTxOpinion tx v], delete tx acc.1.2, delete tx acc.2)) ∧
  (¬ (p_m p + p_l p + 1 ≤ len o ∧ identical (last_entries (p_l p) o)) →
     getFinalizedTxs_body p acc tx = Done acc).
Proof.
  intros Htx Hne Ho Hm Hl Hml.
  destruct (isFinal_from1_spec o (p_m p) (p_l p)) as (final & Hrun & Hfinal); [done..|].
  unfold getFinalizedTxs_body, Load. rewrite Htx.
  change (default [] (Some o)) with o. rewrite Hrun. cbn [run_bind].
  split.
  - intros Hfires. apply Hfinal in Hfires as ->.
    exists (getLastOpinion o).1. split; [|done].
    apply getLastOpinion_last_entries; lia.
  - intros Hnot. destruct final; [|done]. exfalso. apply Hnot, Hfinal. done.
Qed.
End FinalizationRule.

Lemma finalization_fires_iff_stable_tail_witness :
  getFinalizedTxs_body params_S1 finalizing_S1 "T"
  = Done ([mkTxOpinion "T" Like], ∅, ∅).
Proof.
  destruct (finalization_fires_iff_stable_tail params_S1 finalizing_S1 "T"
              (replicate 6 Like)) as [Hfires _];
    [reflexivity | discriminate | vm_compute; discriminate | simpl; lia
    | simpl; lia | vm_compute; discriminate |].
  destruct Hfires as (v & Hv & ->).
  - split; [vm_compute; discriminate|].
    intros v w Hv Hw. vm_compute in Hv, Hw. elem_cases Hv; elem_cases Hw; reflexivity.
  - vm_compute in Hv. elem_cases Hv; reflexivity.
Defined.

(** C2, as stated, fails where [m + l] overflows: with [m] the largest [int]
    and [l = 1] the sum wraps to the smallest [int], the length test passes,
    and a history of two entries finalizes although [|o| < m + l + 1]. *)
Lemma finalization_fires_when_m_plus_l_overflows :
  let p : Parameters Q := mkParameters 3 (1#2) (1#2) (3#10) max_int 1 in
  let o := [Like; Like] in
  let acc : finalizing Q := ([], {["T"%string := o]}, {["T"%string := mkEtaResult (1:Q) 3]}) in
  0 ≤ p_m p ∧ 1 ≤ p_l p ∧ ¬ (p_m p + p_l p + 1 ≤ len o) ∧
  getFinalizedTxs_body p acc "T" = Done ([mkTxOpinion "T" Like], ∅, ∅).
Proof.
  cbv zeta. split; [vm_compute; discriminate|]. split; [simpl; lia|].
  split; [vm_compute; tauto|]. vm_compute. reflexivity.
Qed.

(** ** Interim opinions *)

Lemma getLastOpinion_last (history : Opinions) :
  history ≠ [] → len history ≤ max_int →
  Some (getLastOpinion history).1 = last history.
Proof.
  intros Hne Hlen. pose proof min_int_neg. pose proof (len_nonneg history).
  assert (0 < len history) by (destruct history; [done|rewrite len_cons; pose proof (len_nonneg history); lia]).
  unfold getLastOpinion, int_sub. replace (0 <? len history) with true by lia.
  rewrite wrap_id by lia. rewrite last_lookup.
  replace (Z.to_nat (len history - 1)) with (pred (length history)) by (unfold len; lia).
  destruct (history !! pred (length history)) eqn:Hl; [done|].
  apply lookup_ge_None in Hl. unfold len in *. lia.
Qed.

Section InterimOpinion.
Context {F : Type} `{!Float64 F}.

Lemma GetInterimOpinion_loop (st : context F) (txs : list ID) (done_ : Opinions) :
  foldl (λ result (itx : nat * ID),
           match Load itx.2 (opinionHistory st) with
           | Some history => <[itx.1 := (getLastOpinion history).1]> result
           | None => result
           end)
        (done_ ++ replicate (length txs) false)
        (imap (λ i tx, (length done_ + i, tx)%nat) txs)
  = done_ ++ map (interim st) txs.
Proof.
  revert done_. induction txs as [|tx txs IH]; intros done_; [done|].
  rewrite imap_cons. cbn [foldl length replicate map fst snd].
  assert (match Load tx (opinionHistory st) with
          | Some history =>
              <[(length done_ + 0)%nat := (getLastOpinion history).1]>
                (done_ ++ false :: replicate (length txs) false)
          | None => done_ ++ false :: replicate (length txs) false
          end = (done_ ++ [interim st tx]) ++ replicate (length txs) false) as ->.
  { unfold interim. rewrite <- app_assoc. destruct (Load tx (opinionHistory st)); [|done].
    rewrite insert_app_r_alt by lia. by replace (length done_ + 0 - length done_)%nat with 0%nat by lia. }
  replace (done_ ++ interim st tx :: map (interim st) txs)
    with ((done_ ++ [interim st tx]) ++ map (interim st) txs) by (by rewrite <- app_assoc).
  rewrite <- (IH (done_ ++ [interim st tx])), length_app. cbn [length].
  f_equal. apply imap_ext. intros i x _. simpl. f_equal. lia.
Qed.

Lemma GetInterimOpinion_map (st : context F) (txs : list ID) :
  GetInterimOpinion st txs = map (interim st) txs.
Proof.
  unfold GetInterimOpinion. apply (GetInterimOpinion_loop st txs []).
Qed.

(** C7 (amended): the result of [GetInterimOpinion] has one entry per tx
    asked for; for a tx with a non-empty history the entry is the last
    entry of the history; for a tx with no history the entry is not absent
    but [false] (Dislike), the zero value the result slice is made with. *)
Theorem GetInterimOpinion_last_or_false (st : context F) (txs : list ID) (i : nat) (tx : ID) :
  txs !! i = Some tx →
  length (GetInterimOpinion st txs) = length txs ∧
  (∀ history, opinionHistory st !! tx = Some history → history ≠ [] →
     len history ≤ max_int → GetInterimOpinion st txs !! i = last history) ∧
  (opinionHistory st !! tx = None → GetInterimOpinion st txs !! i = Some false).
Proof.
  intros Hi. rewrite GetInterimOpinion_map, length_map, list_lookup_fmap, Hi.
  unfold interim, Load. cbn [fmap option_fmap option_map].
  split; [done|]. split.
  - intros history -> Hne Hlen. by apply getLastOpinion_last.
  - intros ->. done.
Qed.
End InterimOpinion.

Lemma GetInterimOpinion_last_or_false_witness :
  GetInterimOpinion (voting_T [Dislike; Like]) ["T"%string] !! 0%nat = Some Like
  ∧ GetInterimOpinion fresh_S1 ["T"%string] !! 0%nat = Some false.
Proof.
  split.
  - destruct (GetInterimOpinion_last_or_false (voting_T [Dislike; Like]) ["T"%string] 0 "T")
      as (_ & Hlast & _); [reflexivity|].
    apply (Hlast [Dislike; Like]); [reflexivity | discriminate | vm_compute; discriminate].
  - destruct (GetInterimOpinion_last_or_false fresh_S1 ["T"%string] 0 "T")
      as (_ & _ & Hnone); [reflexivity|].
    apply Hnone. reflexivity.
Defined.

(** C7, as stated, fails for a tx with no history: the result is not absent,
    it holds Dislike at the position of the tx, exactly as it does for a tx
    whose latest opinion is Dislike. *)
Lemma GetInterimOpinion_reports_dislike_without_history :
  opinionHistory fresh_S1 !! "T"%string = None
  ∧ GetInterimOpinion fresh_S1 ["T"%string] !! 0%nat = Some Dislike
  ∧ GetInterimOpinion fresh_S1 ["T"%string] !! 0%nat ≠ None
  ∧ GetInterimOpinion fresh_S1 ["T"%string]
    = GetInterimOpinion (voting_T [Like; Dislike]) ["T"%string].
Proof. repeat split; done. Qed.

(** ** Thresholds *)

(** In exact arithmetic [runif] stays between its bounds. *)
Lemma runif_between (x lo hi : Q) :
  (0 <= x)%Q → (x <= 1)%Q → (lo <= hi)%Q →
  (lo <= runif x lo hi)%Q ∧ (runif x lo hi <= hi)%Q.
Proof.
  intros Hx0 Hx1 Hlh. unfold runif. cbn [f_add f_mul f_sub exact].
  assert (0 <= x * (hi - lo))%Q by (apply Qmult_le_0_compat; lra).
  assert (0 <= (1 - x) * (hi - lo))%Q by (apply Qmult_le_0_compat; lra).
  split; lra.
Qed.




(** ** The update phase *)

Section UpdatePhase.
Context {F : Type} `{!Float64 F}.

Lemma updateOpinion_body_lookup (st : context F) (om : gmap ID Opinions)
    (entry : ID * etaResult F) (tx : ID) :
  updateOpinion_body st om entry !! tx
  = if decide (entry.1 = tx) then updated st (Some entry.2) (om !! tx) else om !! tx.
Proof.
  unfold updateOpinion_body, updated, Load, Store.
  destruct (decide (entry.1 = tx)) as [<-|Hne].
  - destruct (om !! entry.1) as [history|] eqn:Hh; [|done].
    destruct (f_neqb (value entry.2) (f_of_int (-1))); [|done].
    by rewrite lookup_insert_eq.
  - destruct (om !! entry.1) as [history|]; [|done].
    destruct (f_neqb (value entry.2) (f_of_int (-1))); [|done].
    by rewrite lookup_insert_ne.
Qed.

Lemma updateOpinion_loop (st : context F) (entries : list (ID * etaResult F))
    (om : gmap ID Opinions) (tx : ID) :
  NoDup entries.*1 →
  foldl (updateOpinion_body st) om entries !! tx
  = updated st ((list_to_map entries : gmap ID (etaResult F)) !! tx) (om !! tx).
Proof.
  revert om. induction entries as [|[k e] entries IH]; intros om Hnd.
  - simpl. rewrite lookup_empty. by destruct (om !! tx).
  - apply NoDup_cons in Hnd as [Hk Hnd]. cbn [foldl]. rewrite IH by done.
    rewrite updateOpinion_body_lookup. cbn [list_to_map foldr fst snd uncurry].
    destruct (decide (k = tx)) as [<-|Hne].
    + rewrite lookup_insert_eq.
      rewrite (not_elem_of_list_to_map_1 entries k Hk).
      unfold updated at 1. by destruct (updated st (Some e) (om !! k)).
    + by rewrite lookup_insert_ne.
Qed.

Lemma updateOpinion_history (st : context F) (tx : ID) :
  opinionHistory (updateOpinion st) !! tx
  = updated st (activeTxs st !! tx) (opinionHistory st !! tx).
Proof.
  unfold updateOpinion. cbn [set_opinionHistory opinionHistory].
  rewrite updateOpinion_loop by apply NoDup_fst_map_to_list.
  by rewrite list_to_map_to_list.
Qed.

Lemma updateOpinion_other_fields (st : context F) :
  activeTxs (updateOpinion st) = activeTxs st
  ∧ waitingTxs (updateOpinion st) = waitingTxs st
  ∧ parameters (updateOpinion st) = parameters st
  ∧ ctx_tick (updateOpinion st) = ctx_tick st.
Proof. done. Qed.
End UpdatePhase.

(** In exact arithmetic the threshold of a later round is
    [beta + x (1 - 2 beta)], and a tie is not a Like. *)
Lemma runif_beta_exact (x beta : Q) :
  (runif x beta (f_sub (f_of_int 1) beta) == beta + x * (1 - 2 * beta))%Q.
Proof. unfold runif. cbn [f_add f_mul f_sub f_of_int exact]. ring. Qed.

Lemma tie_is_dislike_exact (eta tau : Q) : (eta == tau)%Q → f_gtb eta tau = Dislike.
Proof.
  intros Heq. cbn [f_gtb exact]. apply negb_false_iff, Qle_bool_iff. rewrite Heq. apply Qle_refl.
Qed.

(** C3 (amended): in the update phase of a round with common random [x],
    every tx of ActiveSet whose EtaResult has a value other than -1 gets
    exactly one opinion appended to its history, [eta.value > tau] (Go's
    strict [>]), where [tau] is [a + x (b - a)] when the history has length
    1 and [beta + x ((1 - beta) - beta)] otherwise, each evaluated in the
    arithmetic of the engine, operation by operation as [runif] does; the
    history of a tx whose value is -1, and of a tx outside ActiveSet, is
    left as it was.  In exact arithmetic (not in float64) the second
    threshold is [beta + x (1 - 2 beta)] and a value equal to the threshold
    yields Dislike. *)
Theorem updateOpinion_appends_one_opinion {F : Type} `{!Float64 F} (st : context F) (tx : ID) :
  let x := tick_x (ctx_tick st) in
  let a := p_a (parameters st) in
  let b := p_b (parameters st) in
  let beta := p_beta (parameters st) in
  let tau (history : Opinions) :=
    if len history =? 1 then f_add a (f_mul x (f_sub b a))
    else f_add beta (f_mul x (f_sub (f_sub (f_of_int 1) beta) beta)) in
  opinionHistory (updateOpinion st) !! tx
  = match activeTxs st !! tx, opinionHistory st !! tx with
    | Some eta, Some history =>
        if f_neqb (value eta) (f_of_int (-1))
        then Some (history ++ [f_gtb (value eta) (tau history)])
        else Some history
    | _, history => history
    end
  ∧ (∀ x' beta' : Q,
       (f_add beta' (f_mul x' (f_sub (f_sub (f_of_int 1) beta') beta'))
        == beta' + x' * (1 - 2 * beta'))%Q)
  ∧ (∀ eta' tau' : Q, (eta' == tau')%Q → f_gtb eta' tau' = Dislike).
Proof.
  cbv zeta. split; [|split].
  - rewrite updateOpinion_history. unfold updated, threshold, runif.
    destruct (activeTxs st !! tx); destruct (opinionHistory st !! tx); done.
  - intros x' beta'. apply runif_beta_exact.
  - apply tie_is_dislike_exact.
Qed.

Lemma updateOpinion_appends_one_opinion_witness :
  opinionHistory (updateOpinion state_tie) !! "T"%string = Some [Like; Like; Dislike]
  ∧ f_gtb (1#2 : Q) (2#4 : Q) = Dislike.
Proof.
  destruct (updateOpinion_appends_one_opinion state_tie "T") as (Hupd & _ & Htie).
  split.
  - rewrite Hupd. vm_compute. reflexivity.
  - apply Htie. reflexivity.
Defined.

(** On float64 the threshold of the code is not the one of the formula
    [beta + x (1 - 2 beta)]: with [beta = 0.05], [x = 0.5] and a history of
    two opinions, the formula gives [0.5], in float64 as in exact
    arithmetic (where it is [1/2] for every [beta]), so that an eta of
    [0.5] is a tie and the opinion would be Dislike; [runif] computes
    [0.05 + 0.5 * (0.95 - 0.05) = 0.49999999999999994], below the eta, and
    [updateOpinion] appends Like. *)
Lemma tie_appends_like_in_binary64 :
  let st := state_tie_binary64 in
  let x := tick_x (ctx_tick st) in
  let beta := p_beta (parameters st) in
  let formula := PrimFloat.add beta (PrimFloat.mul x (PrimFloat.sub 1 (PrimFloat.mul 2 beta))) in
  activeTxs st !! "T"%string = Some (mkEtaResult 0.5%float 4)
  ∧ opinionHistory st !! "T"%string = Some [Like; Like]
  ∧ formula = 0.5%float
  ∧ (∀ beta' : Q, (beta' + (1#2) * (1 - 2 * beta') == 1#2)%Q)
  ∧ f_gtb 0.5%float formula = Dislike
  ∧ threshold st [Like; Like] = 0x1.fffffffffffffp-2%float
  ∧ f_gtb 0.5%float (threshold st [Like; Like]) = Like
  ∧ opinionHistory (updateOpinion st) !! "T"%string = Some [Like; Like; Like].
Proof.
  cbv zeta. repeat split; try (vm_compute; reflexivity).
  intros beta'. ring.
Qed.

(** ** The sampler *)

Section Sampler.
Context {F : Type} `{!Float64 F}.

Lemma calculateEtas_body_lookup (allEtas : gmap ID (etaResult F)) (vote : TxOpinion) (tx : ID) :
  calculateEtas_body allEtas vote !! tx
  = if decide (TxHash vote = tx) then tally_vote (allEtas !! tx) (Opinion vote)
    else allEtas !! tx.
Proof.
  unfold calculateEtas_body, tally_vote.
  destruct (decide (TxHash vote = tx)) as [<-|Hne].
  - rewrite lookup_alter_eq.
    destruct (allEtas !! TxHash vote) as [e|] eqn:He; destruct (Opinion vote);
      rewrite ?lookup_alter_eq, ?lookup_insert_eq, ?He; done.
  - rewrite lookup_alter_ne by done.
    destruct (allEtas !! TxHash vote) as [e|] eqn:He; destruct (Opinion vote);
      rewrite ?lookup_alter_ne, ?lookup_insert_ne by done; done.
Qed.

Lemma calculateEtas_loop_lookup (votes : list TxOpinion) (allEtas : gmap ID (etaResult F)) (tx : ID) :
  foldl calculateEtas_body allEtas votes !! tx
  = foldl tally_vote (allEtas !! tx) (votes_on tx votes).
Proof.
  revert allEtas. induction votes as [|vote votes IH]; intros allEtas; [done|].
  cbn [foldl]. rewrite IH, calculateEtas_body_lookup. unfold votes_on.
  rewrite filter_cons. destruct (decide (TxHash vote = tx)); done.
Qed.

Lemma tally_vote_loop (opinions : Opinions) (e : etaResult F) :
  foldl tally_vote (Some e) opinions
  = Some (mkEtaResult (Nat.iter (positives opinions) (λ v, f_add v (f_of_int 1)) (value e))
                      (Nat.iter (length opinions) (λ c, int_add c 1) (count e))).
Proof.
  revert e. induction opinions as [|o opinions IH]; intros e.
  - by destruct e.
  - cbn [foldl]. unfold tally_vote at 2. cbn [default from_option id]. rewrite IH.
    cbn [value count length]. unfold positives. rewrite filter_cons.
    rewrite Nat.iter_succ_r. destruct o.
    + rewrite decide_True by done. cbn [length]. by rewrite Nat.iter_succ_r.
    + rewrite decide_False by done. done.
Qed.

Lemma tally_from_nothing (opinions : Opinions) :
  foldl tally_vote None opinions
  = match opinions with
    | [] => None
    | _ => Some (mkEtaResult (f_count (positives opinions)) (int_count (length opinions)))
    end.
Proof.
  destruct opinions as [|o opinions]; [done|].
  cbn [foldl]. unfold tally_vote at 2. cbn [default from_option id value count].
  rewrite tally_vote_loop. cbn [value count length]. unfold f_count, int_count, positives.
  rewrite filter_cons, Nat.iter_succ_r. destruct o.
  - rewrite decide_True by done. cbn [length]. by rewrite Nat.iter_succ_r.
  - rewrite decide_False by done. done.
Qed.

Lemma int_count_small (n : nat) : Z.of_nat n ≤ max_int → int_count n = Z.of_nat n.
Proof.
  pose proof min_int_neg. induction n as [|n IH]; intros Hn; [done|].
  change (int_count (S n)) with (int_add (int_count n) 1). rewrite IH by lia.
  unfold int_add. rewrite wrap_id; lia.
Qed.

Lemma calculateEtas_lookup (votes : list TxOpinion) (tx : ID) :
  calculateEtas votes !! tx = eta_of (votes_on tx votes).
Proof.
  unfold calculateEtas. rewrite lookup_fmap, calculateEtas_loop_lookup, lookup_empty.
  rewrite tally_from_nothing. unfold eta_of. by destruct (votes_on tx votes).
Qed.

Lemma eta_of_Permutation (opinions opinions' : Opinions) :
  opinions ≡ₚ opinions' → eta_of opinions = eta_of opinions'.
Proof.
  intros Hp.
  assert (positives opinions = positives opinions') as Hpos by (unfold positives; by rewrite Hp).
  assert (length opinions = length opinions') as Hlen by by rewrite Hp.
  unfold eta_of. rewrite Hpos, Hlen.
  destruct opinions; destruct opinions'; done.
Qed.

Lemma votes_on_Permutation (tx : ID) (votes votes' : list TxOpinion) :
  votes ≡ₚ votes' → votes_on tx votes ≡ₚ votes_on tx votes'.
Proof. intros Hp. unfold votes_on. by rewrite Hp. Qed.

Lemma calculateEtas_Permutation (votes votes' : list TxOpinion) :
  votes ≡ₚ votes' → calculateEtas votes = calculateEtas votes'.
Proof.
  intros Hp. apply map_eq. intros tx. rewrite !calculateEtas_lookup.
  by apply eta_of_Permutation, votes_on_Permutation.
Qed.
End Sampler.

Lemma f_count_exact (n : nat) : (f_count n == inject_Z (Z.of_nat n))%Q.
Proof.
  induction n as [|n IH]; [reflexivity|].
  change (f_count (S n)) with (f_count n + inject_Z 1)%Q. rewrite IH.
  rewrite <- inject_Z_plus. apply inject_Z_injective. lia.
Qed.

Lemma positives_votes_on (tx : ID) (votes : list TxOpinion) :
  positives (votes_on tx votes)
  = length (filter (λ vote, TxHash vote = tx ∧ Opinion vote = true) votes).
Proof.
  unfold positives, votes_on. induction votes as [|vote votes IH]; [done|].
  rewrite !filter_cons. destruct (decide (TxHash vote = tx)) as [Htx|Htx].
  - rewrite fmap_cons, filter_cons. destruct (Opinion vote) eqn:Hop.
    + rewrite decide_True by done. rewrite decide_True by done. cbn [length]. by rewrite IH.
    + rewrite decide_False by done. rewrite decide_False by (intros [_ ?]; done). done.
  - rewrite decide_False by (intros [? _]; done). done.
Qed.

Lemma length_votes_on (tx : ID) (votes : list TxOpinion) :
  length (votes_on tx votes) = length (filter (λ vote, TxHash vote = tx) votes).
Proof. unfold votes_on. by rewrite length_fmap. Qed.

(** C8: for every list of collected votes (a Go slice, so of a length that
    fits an [int]) and every tx: if the tx received no vote it is absent from
    the eta map; otherwise its eta has [count] = the number of votes received
    for it and [value] = the number of positive votes for it (counted in
    float64 by [value++]) divided by [float64(count)]; and the map is the
    same for every order of the votes.  In exact arithmetic the counted
    number of positive votes is that number. *)
Theorem calculateEtas_ratio_per_tx {F : Type} `{!Float64 F}
    (votes votes' : list TxOpinion) (tx : ID) :
  len votes ≤ max_int →
  let received := length (filter (λ vote, TxHash vote = tx) votes) in
  let positive := length (filter (λ vote, TxHash vote = tx ∧ Opinion vote = true) votes) in
  (received = 0%nat → calculateEtas votes !! tx = None)
  ∧ (received ≠ 0%nat →
     calculateEtas votes !! tx
     = Some (mkEtaResult (f_div (f_count positive) (f_of_int (Z.of_nat received)))
                         (Z.of_nat received)))
  ∧ (votes ≡ₚ votes' → calculateEtas votes = calculateEtas votes')
  ∧ (∀ n, (f_count n == inject_Z (Z.of_nat n))%Q).
Proof.
  intros Hlen. cbv zeta.
  rewrite calculateEtas_lookup, <- positives_votes_on, <- length_votes_on.
  assert (Z.of_nat (length (votes_on tx votes)) ≤ max_int) as Hcount.
  { rewrite length_votes_on. pose proof (length_filter (λ vote, TxHash vote = tx) votes).
    unfold len in Hlen. lia. }
  split; [|split; [|split]].
  - intros Hnone. by destruct (votes_on tx votes).
  - intros Hsome. unfold eta_of. rewrite int_count_small by done.
    by destruct (votes_on tx votes).
  - apply calculateEtas_Permutation.
  - apply f_count_exact.
Qed.

Lemma calculateEtas_ratio_per_tx_witness :
  calculateEtas four_votes !! "T"%string = Some (mkEtaResult (2 / 3)%Q 3)
  ∧ calculateEtas (F:=Q) four_votes !! "V"%string = None
  ∧ calculateEtas (F:=Q) four_votes = calculateEtas (reverse four_votes).
Proof.
  assert (len four_votes ≤ max_int) as Hlen by (vm_compute; discriminate).
  split; [|split].
  - destruct (calculateEtas_ratio_per_tx (F:=Q) four_votes four_votes "T" Hlen)
      as (_ & Hsome & _).
    rewrite Hsome by (vm_compute; discriminate). vm_compute. reflexivity.
  - destruct (calculateEtas_ratio_per_tx (F:=Q) four_votes four_votes "V" Hlen)
      as (Hnone & _).
    apply Hnone. reflexivity.
  - destruct (calculateEtas_ratio_per_tx (F:=Q) four_votes (reverse four_votes) "T" Hlen)
      as (_ & _ & Hperm & _).
    apply Hperm. symmetry. apply reverse_Permutation.
Defined.

(** ** Attribution of votes *)

Lemma attribute_loop (txs : list ID) (votes : Opinions) (off : nat) (result : list TxOpinion) :
  (off ≤ length txs)%nat →
  foldlM (λ result (iv : nat * bool),
            tx <-! elem_at txs (Z.of_nat iv.1) ;;
            Done (result ++ [mkTxOpinion tx iv.2]))
         result (imap (λ i vote, (off + i, vote)%nat) votes)
  = if decide (off + length votes ≤ length txs)%nat
    then Done (result ++ zip_with mkTxOpinion (drop off txs) votes)
    else Panics IndexOutOfRange.
Proof.
  revert off result. induction votes as [|vote votes IH]; intros off result Hoff.
  - cbn [imap foldlM length zip_with]. rewrite decide_True by lia.
    destruct (drop off txs); by rewrite app_nil_r.
  - rewrite imap_cons. cbn [foldlM fst snd length]. rewrite Nat.add_0_r.
    destruct (decide (off < length txs)%nat) as [Hlt|Hge].
    + destruct (elem_at_in_range txs (Z.of_nat off)) as (tx & Htx & ->); [unfold len; lia|].
      rewrite Nat2Z.id in Htx. cbn [run_bind].
      rewrite (imap_ext _ (λ i vote', (S off + i, vote')%nat))
        by (intros; simpl; f_equal; lia).
      rewrite IH by lia. rewrite (drop_S _ _ _ Htx). cbn [zip_with].
      destruct (decide (S off + length votes ≤ length txs)%nat);
        [rewrite decide_True by lia | rewrite decide_False by lia]; [|done].
      by rewrite <- app_assoc.
    + rewrite elem_at_out_of_range by (unfold len; lia). cbn [run_bind].
      by rewrite decide_False by lia.
Qed.

Lemma attribute_spec (txs : list ID) (result : list TxOpinion) (votes : Opinions) :
  attribute txs result votes
  = if decide (length votes ≤ length txs)%nat
    then Done (result ++ zip_with mkTxOpinion txs votes)
    else Panics IndexOutOfRange.
Proof.
  pose proof (attribute_loop txs votes 0 result) as Hloop.
  rewrite drop_0 in Hloop. apply Hloop. lia.
Qed.

Lemma merge_loop (txs : list ID) (responses : list Opinions) (result : list TxOpinion) :
  foldlM (λ result votes, if 0 <? len votes then attribute txs result votes else Done result)
         result responses
  = if decide (Forall (λ votes : Opinions, length votes ≤ length txs)%nat responses)
    then Done (result ++ flat_map (zip_with mkTxOpinion txs) responses)
    else Panics IndexOutOfRange.
Proof.
  revert result. induction responses as [|votes responses IH]; intros result.
  - cbn [foldlM flat_map]. rewrite decide_True by constructor. by rewrite app_nil_r.
  - cbn [foldlM flat_map].
    assert ((if 0 <? len votes then attribute txs result votes else Done result)
            = attribute txs result votes) as ->.
    { destruct (0 <? len votes) eqn:Hlen; [done|]. rewrite attribute_spec.
      destruct votes; [|rewrite len_cons in Hlen; pose proof (len_nonneg votes); lia].
      rewrite decide_True by (simpl; lia). destruct txs; by rewrite app_nil_r. }
    rewrite attribute_spec. destruct (decide (length votes ≤ length txs)%nat) as [Hfit|Hlong].
    + cbn [run_bind]. rewrite IH.
      destruct (decide (Forall _ responses)) as [Hall|Hnot].
      * rewrite decide_True by by constructor. by rewrite <- app_assoc.
      * rewrite decide_False; [done|]. by intros [_ ?]%Forall_cons.
    + cbn [run_bind]. rewrite decide_False; [done|]. by intros [? _]%Forall_cons.
Qed.

(** C10: [querySample] returns only if every response is empty or no longer
    than [txs].  The merging loop returns exactly when every response fits,
    and then vote [i] of each response is attributed to [txs[i]]; as soon as
    one response is longer than [txs], [txs[voteIdx]] is out of range and
    the loop panics; a response one longer than [txs] does so.  So, once the
    nodes are chosen, [querySample] aggregates the attributed votes when the
    responses fit, and panics on the index otherwise. *)
Theorem querySample_needs_fitting_responses {F : Type} `{!Float64 F}
    (rnd : nat → Z) (txs : list ID) (k : Z) (nodes : list string)
    (qn : list ID → string → Opinions) :
  (∀ responses : list Opinions,
     merge txs responses
     = if decide (Forall (λ votes : Opinions, length votes ≤ length txs)%nat responses)
       then Done (flat_map (zip_with mkTxOpinion txs) responses)
       else Panics IndexOutOfRange)
  ∧ (∀ (votes : Opinions) (i : nat) (vote : bool),
       (1 ≤ length votes ≤ length txs)%nat → votes !! i = Some vote →
       ∃ tx, txs !! i = Some tx
             ∧ zip_with mkTxOpinion txs votes !! i = Some (mkTxOpinion tx vote))
  ∧ merge txs [replicate (S (length txs)) Like] = Panics IndexOutOfRange
  ∧ querySample rnd txs k nodes qn
    = (selectedNodes <-! choose rnd nodes k ;;
       if decide (Forall (λ votes : Opinions, length votes ≤ length txs)%nat
                    (map (qn txs) selectedNodes))
       then Done (calculateEtas (F:=F) (flat_map (zip_with mkTxOpinion txs)
                                           (map (qn txs) selectedNodes)))
       else Panics IndexOutOfRange).
Proof.
  assert (∀ responses : list Opinions,
     merge txs responses
     = if decide (Forall (λ votes : Opinions, length votes ≤ length txs)%nat responses)
       then Done (flat_map (zip_with mkTxOpinion txs) responses)
       else Panics IndexOutOfRange) as Hmerge.
  { intros responses. unfold merge. by rewrite merge_loop. }
  split; [done|]. split; [|split].
  - intros votes i vote [_ Hfit] Hvote.
    destruct (txs !! i) as [tx|] eqn:Htx.
    + exists tx. split; [done|]. rewrite lookup_zip_with, Htx. cbn [mbind option_bind]. by rewrite Hvote.
    + apply lookup_ge_None in Htx. apply lookup_lt_Some in Hvote. lia.
  - rewrite Hmerge. rewrite decide_False; [done|].
    intros [Hlen _]%Forall_cons. rewrite length_replicate in Hlen. lia.
  - unfold querySample. destruct (choose rnd nodes k) as [selectedNodes|]; [|done].
    cbn [run_bind]. rewrite Hmerge.
    by destruct (decide (Forall _ (map (qn txs) selectedNodes))).
Qed.

Lemma querySample_needs_fitting_responses_witness :
  ∃ tx, ["T"; "U"]%string !! 1%nat = Some tx
        ∧ zip_with mkTxOpinion ["T"; "U"]%string [Like; Dislike] !! 1%nat
          = Some (mkTxOpinion tx Dislike).
Proof.
  destruct (querySample_needs_fitting_responses (F:=Q) (λ _, 0) ["T"; "U"]%string 1 []
              (λ _ _, [])) as (_ & Hattr & _).
  apply (Hattr [Like; Dislike] 1%nat Dislike); [simpl; lia | reflexivity].
Defined.

(** ** Phases of a round *)

Section Phases.
Context {F : Type} `{!Float64 F}.

Lemma elem_of_keys (m : gmap ID (etaResult F)) (tx : ID) :
  tx ∈ (map_to_list m).*1 ↔ is_Some (m !! tx).
Proof.
  rewrite list_elem_of_fmap. split.
  - intros ([k e] & -> & Hin). apply elem_of_map_to_list in Hin. by exists e.
  - intros [e He]. exists (tx, e). split; [done|]. by apply elem_of_map_to_list.
Qed.

Lemma storeEtas_loop (entries : list (ID * etaResult F)) (active : gmap ID (etaResult F))
    (tx : ID) :
  NoDup entries.*1 →
  foldl (λ active (entry : ID * etaResult F), <[entry.1 := entry.2]> active) active entries !! tx
  = match (list_to_map entries : gmap ID (etaResult F)) !! tx with
    | Some eta => Some eta
    | None => active !! tx
    end.
Proof.
  revert active. induction entries as [|[k e] entries IH]; intros active Hnd.
  - simpl. by rewrite lookup_empty.
  - apply NoDup_cons in Hnd as [Hk Hnd]. cbn [foldl]. rewrite IH by done.
    cbn [list_to_map foldr fst snd uncurry].
    destruct (decide (k = tx)) as [<-|Hne].
    + rewrite (not_elem_of_list_to_map_1 entries k Hk). by rewrite !lookup_insert_eq.
    + by rewrite !lookup_insert_ne.
Qed.

(** The last loop of [round] overwrites the sampled txs and no other. *)
Lemma storeEtas_lookup (etas active : gmap ID (etaResult F)) (tx : ID) :
  storeEtas etas active !! tx
  = match etas !! tx with
    | Some eta => Some eta
    | None => active !! tx
    end.
Proof.
  unfold storeEtas. rewrite storeEtas_loop by apply NoDup_fst_map_to_list.
  by rewrite list_to_map_to_list.
Qed.

(** *** Intake *)

Lemma promote_fields (active0 : gmap ID (etaResult F)) (st : context F) (newTx : TxOpinion) :
  waitingTxs (promote active0 st newTx) = waitingTxs st
  ∧ parameters (promote active0 st newTx) = parameters st
  ∧ ctx_tick (promote active0 st newTx) = ctx_tick st.
Proof. unfold promote. by destruct (active0 !! TxHash newTx). Qed.

Lemma promote_loop_fields (active0 : gmap ID (etaResult F)) (txs : list TxOpinion) (st : context F) :
  parameters (foldl (promote active0) st txs) = parameters st
  ∧ ctx_tick (foldl (promote active0) st txs) = ctx_tick st.
Proof.
  revert st. induction txs as [|newTx txs IH]; intros st; [done|].
  cbn [foldl]. destruct (IH (promote active0 st newTx)) as [-> ->].
  by destruct (promote_fields active0 st newTx) as (_ & -> & ->).
Qed.

Lemma popTxs_fields (st : context F) :
  waitingTxs (popTxs st) = []
  ∧ parameters (popTxs st) = parameters st
  ∧ ctx_tick (popTxs st) = ctx_tick st.
Proof.
  unfold popTxs. cbn [set_waitingTxs waitingTxs parameters ctx_tick].
  split; [done|]. apply promote_loop_fields.
Qed.

(** With nothing waiting, the intake changes nothing. *)
Lemma popTxs_nothing_waiting (st : context F) : waitingTxs st = [] → popTxs st = st.
Proof. destruct st as [om act waiting p t]. cbn. by intros ->. Qed.

(** A tx that is active when the round begins keeps its EtaResult and its
    history through the intake. *)
Lemma promote_loop_active (active0 : gmap ID (etaResult F)) (txs : list TxOpinion)
    (st : context F) (tx : ID) :
  is_Some (active0 !! tx) →
  activeTxs (foldl (promote active0) st txs) !! tx = activeTxs st !! tx
  ∧ opinionHistory (foldl (promote active0) st txs) !! tx = opinionHistory st !! tx.
Proof.
  intros Hactive. revert st. induction txs as [|newTx txs IH]; intros st; [done|].
  cbn [foldl]. destruct (IH (promote active0 st newTx)) as [-> ->].
  unfold promote. destruct (active0 !! TxHash newTx) eqn:Hnew; [done|].
  cbn [set_activeTxs set_opinionHistory activeTxs opinionHistory].
  assert (TxHash newTx ≠ tx) as Hne.
  { intros Heq. rewrite Heq in Hnew. rewrite Hnew in Hactive. by destruct Hactive. }
  by rewrite !lookup_insert_ne.
Qed.

Lemma popTxs_active (st : context F) (tx : ID) :
  is_Some (activeTxs st !! tx) →
  activeTxs (popTxs st) !! tx = activeTxs st !! tx
  ∧ opinionHistory (popTxs st) !! tx = opinionHistory st !! tx.
Proof.
  intros Hactive. unfold popTxs. cbn [set_waitingTxs activeTxs opinionHistory].
  by apply promote_loop_active.
Qed.

(** *** Finalization *)

Lemma getFinalizedTxs_loop (p : Parameters F) (keys : list ID) (acc acc' : finalizing F) :
  foldlM (getFinalizedTxs_body p) acc keys = Done acc' →
  ∃ new : list TxOpinion,
    acc'.1.1 = acc.1.1 ++ new
    ∧ (∀ tx, tx ∈ TxHash <$> new → tx ∈ keys)
    ∧ (∀ tx, tx ∈ TxHash <$> new → acc'.1.2 !! tx = None ∧ acc'.2 !! tx = None)
    ∧ (∀ tx, tx ∉ TxHash <$> new →
         acc'.1.2 !! tx = acc.1.2 !! tx ∧ acc'.2 !! tx = acc.2 !! tx).
Proof.
  revert acc. induction keys as [|k keys IH]; intros acc Hrun.
  - cbn in Hrun. injection Hrun as <-. exists []. rewrite app_nil_r.
    split; [done|]. split; [|split]; intros tx; rewrite ?fmap_nil, ?elem_of_nil; done.
  - cbn [foldlM] in Hrun. apply run_bind_Done in Hrun as (acc1 & Hbody & Hrest).
    destruct (IH acc1 Hrest) as (new & Hnew & Hkeys & Hgone & Hkept).
    unfold getFinalizedTxs_body in Hbody.
    apply run_bind_Done in Hbody as (final & _ & Hbody). destruct final.
    + injection Hbody as <-. cbn [fst snd] in *.
      exists (mkTxOpinion k (getLastOpinion (default [] (Load k acc.1.2))).1 :: new).
      split; [by rewrite Hnew, <- app_assoc|]. split; [|split]; intros tx.
      * rewrite fmap_cons, !elem_of_cons. cbn [TxHash].
        intros [->|Hin]; [by left|right; by apply Hkeys].
      * rewrite fmap_cons. cbn [TxHash]. intros Hin.
        destruct (decide (tx ∈ TxHash <$> new)) as [Hn|Hn].
        { by apply Hgone. }
        apply elem_of_cons in Hin as [->|Hin]; [|done].
        destruct (Hkept k Hn) as [-> ->]. unfold Delete. by rewrite !lookup_delete_eq.
      * rewrite fmap_cons. cbn [TxHash]. intros Hnot.
        apply not_elem_of_cons in Hnot as [Hne Hnot].
        destruct (Hkept tx Hnot) as [-> ->]. unfold Delete. by rewrite !lookup_delete_ne.
    + injection Hbody as <-. exists new. split; [done|].
      split; [|split]; [|done..]. intros tx Hin. right. by apply Hkeys.
Qed.

Lemma getFinalizedTxs_spec (st st' : context F) (batch : list TxOpinion) :
  getFinalizedTxs st = Done (batch, st') →
  (∀ tx, tx ∈ TxHash <$> batch → is_Some (activeTxs st !! tx))
  ∧ (∀ tx, tx ∈ TxHash <$> batch →
       opinionHistory st' !! tx = None ∧ activeTxs st' !! tx = None)
  ∧ (∀ tx, tx ∉ TxHash <$> batch →
       opinionHistory st' !! tx = opinionHistory st !! tx
       ∧ activeTxs st' !! tx = activeTxs st !! tx)
  ∧ waitingTxs st' = waitingTxs st
  ∧ parameters st' = parameters st
  ∧ ctx_tick st' = ctx_tick st.
Proof.
  unfold getFinalizedTxs. intros Hrun. apply run_bind_Done in Hrun as (acc & Hloop & Hret).
  injection Hret as <- <-.
  apply getFinalizedTxs_loop in Hloop as (new & Hnew & Hkeys & Hgone & Hkept).
  cbn [fst snd app] in Hnew. rewrite Hnew.
  cbn [set_activeTxs set_opinionHistory opinionHistory activeTxs waitingTxs parameters ctx_tick].
  split; [|done]. intros tx Hin. by apply elem_of_keys, Hkeys.
Qed.
End Phases.

(** ** A round *)

Section Round.
Context {F : Type} `{!Float64 F}.

Lemma choose_no_peers (rnd : nat → Z) (k : Z) :
  0 < k → choose rnd [] k = Panics IntnInvalidArgument.
Proof.
  intros Hk. unfold choose. replace (k <? 0) with false by lia.
  destruct (Z.to_nat k) as [|n] eqn:Hn; [lia|]. done.
Qed.

(** With a fanout of 0 nothing is drawn and the sample is empty. *)
Lemma querySample_zero_fanout (rnd : nat → Z) (txs : list ID) (nodes : list string)
    (qn : list ID → string → Opinions) :
  querySample (F:=F) rnd txs 0 nodes qn = Done ∅.
Proof. done. Qed.

Lemma querySample_no_peers (rnd : nat → Z) (txs : list ID) (k : Z)
    (qn : list ID → string → Opinions) :
  0 < k → querySample (F:=F) rnd txs k [] qn = Panics IntnInvalidArgument.
Proof. intros Hk. unfold querySample. by rewrite choose_no_peers. Qed.

(** The parameters do not change during the first three phases. *)
Lemma parameters_finalized (st : context F) (fin : list TxOpinion * context F) :
  getFinalizedTxs (updateOpinion (popTxs st)) = Done fin →
  parameters fin.2 = parameters st.
Proof.
  destruct fin as [batch st']. intros Hfin. cbn [snd].
  apply getFinalizedTxs_spec in Hfin as (_ & _ & _ & _ & -> & _).
  apply popTxs_fields.
Qed.

(** C1: with no known peer and a positive fanout [k], [choose] calls
    [rand.Intn(0)], which panics, so [querySample] panics for every tx list
    and every [queryNode] and returns no eta map; a round never returns, and
    when its first three phases return it panics in the sampling phase. *)
Theorem round_panics_without_peers (w : collaborators) (st : context F) :
  getKnownPeers w = [] → 0 < p_k (parameters st) →
  (∀ rnd txs qn,
     querySample (F:=F) rnd txs (p_k (parameters st)) [] qn = Panics IntnInvalidArgument)
  ∧ ¬ returns (round w st)
  ∧ (returns (getFinalizedTxs (updateOpinion (popTxs st))) →
     round w st = Panics IntnInvalidArgument).
Proof.
  intros Hpeers Hk. split; [|split].
  - intros rnd txs qn. by apply querySample_no_peers.
  - intros [r Hr]. unfold round in Hr.
    apply run_bind_Done in Hr as (fin & Hfin & Hr).
    apply run_bind_Done in Hr as (etas & Hetas & _).
    rewrite Hpeers, (parameters_finalized st fin Hfin) in Hetas.
    by rewrite querySample_no_peers in Hetas.
  - intros [fin Hfin]. unfold round. rewrite Hfin. cbn [run_bind].
    rewrite Hpeers, (parameters_finalized st fin Hfin).
    by rewrite querySample_no_peers.
Qed.

(** C9: in the query phase of a round the EtaResult of a tx is overwritten
    exactly when the tx is in the eta map the sampler returned; every other
    tx of ActiveSet keeps the EtaResult it had.  Over the whole round, a tx
    that was active when the round began, is not finalized and is absent
    from the returned map ends the round with the EtaResult it began with:
    it is not reset to [{-1, 0}]. *)
Theorem round_overwrites_only_sampled (w : collaborators) (st : context F)
    (fin : list TxOpinion * context F) (etas : gmap ID (etaResult F)) :
  getFinalizedTxs (updateOpinion (popTxs st)) = Done fin →
  querySample (rand_source w) (getActiveTxs fin.2) (p_k (parameters fin.2))
    (getKnownPeers w) (queryNode w) = Done etas →
  ∃ st', round w st = Done (fin.1, st')
    ∧ opinionHistory st' = opinionHistory fin.2
    ∧ (∀ tx, activeTxs st' !! tx
             = match etas !! tx with
               | Some eta => Some eta
               | None => activeTxs fin.2 !! tx
               end)
    ∧ (∀ tx eta, activeTxs st !! tx = Some eta → tx ∉ TxHash <$> fin.1 →
                 etas !! tx = None → activeTxs st' !! tx = Some eta).
Proof.
  destruct fin as [batch st3]. cbn [fst snd].
  intros Hfin Hetas. unfold round. rewrite Hfin. cbn [run_bind fst snd].
  rewrite Hetas. cbn [run_bind].
  eexists. split; [done|]. cbn [set_activeTxs opinionHistory activeTxs].
  split; [done|]. split.
  - intros tx. apply storeEtas_lookup.
  - intros tx eta Hactive Hkept Hnone. rewrite storeEtas_lookup, Hnone.
    apply getFinalizedTxs_spec in Hfin as (_ & _ & Hframe & _).
    destruct (Hframe tx Hkept) as [_ ->].
    destruct (updateOpinion_other_fields (popTxs st)) as (-> & _).
    destruct (popTxs_active st tx) as [-> _]; [by exists eta|done].
Qed.
End Round.

Lemma round_panics_without_peers_witness :
  Tick no_peers 1 (1#2) submitted_S3 = Panics IntnInvalidArgument.
Proof.
  destruct (round_panics_without_peers no_peers (set_tick (newTick 1 (1#2)) submitted_S3))
    as (_ & _ & Hpanics); [reflexivity | reflexivity |].
  apply Hpanics. eexists. vm_compute. reflexivity.
Defined.

Lemma round_overwrites_only_sampled_witness :
  ∃ st', round first_only two_active = Done ([], st')
    ∧ activeTxs st' !! "U"%string = Some (mkEtaResult (3 / 3)%Q 3)
    ∧ activeTxs st' !! "T"%string = Some (mkEtaResult (1#3) 3).
Proof.
  destruct (round_overwrites_only_sampled first_only two_active
              ([], updateOpinion (popTxs two_active))
              (calculateEtas (replicate 3 (mkTxOpinion "U" Like))))
    as (st' & Hround & _ & Hlookup & Hframe);
    [vm_compute; reflexivity | vm_compute; reflexivity |].
  exists st'. split; [done|]. split.
  - rewrite Hlookup. vm_compute. reflexivity.
  - apply Hframe; [reflexivity | | reflexivity].
    apply not_elem_of_nil.
Defined.

(** ** Retirement of finalized txs *)

Section Retirement.
Context {F : Type} `{!Float64 F}.

Lemma calculateEtas_dom (votes : list TxOpinion) (tx : ID) :
  is_Some (calculateEtas (F:=F) votes !! tx) → tx ∈ TxHash <$> votes.
Proof.
  rewrite calculateEtas_lookup. unfold eta_of, votes_on.
  destruct (filter (λ vote, TxHash vote = tx) votes) as [|vote rest] eqn:Hfilter.
  - cbn [fmap list_fmap]. by intros [? ?].
  - intros _. assert (vote ∈ filter (λ vote, TxHash vote = tx) votes) as Hin
      by (rewrite Hfilter; by left).
    apply list_elem_of_filter in Hin as [<- Hin]. apply list_elem_of_fmap. by exists vote.
Qed.

Lemma attributed_to_txs (txs : list ID) (responses : list Opinions) (tx : ID) :
  tx ∈ TxHash <$> flat_map (zip_with mkTxOpinion txs) responses → tx ∈ txs.
Proof.
  intros (vote & -> & Hin)%list_elem_of_fmap.
  apply list_elem_of_In, in_flat_map in Hin as (votes & _ & Hin).
  apply list_elem_of_In, elem_of_zip_with in Hin as (tx & o & -> & Htx & _). done.
Qed.

(** The sampler returns etas for txs it was asked about only. *)
Lemma querySample_dom (rnd : nat → Z) (txs : list ID) (k : Z) (nodes : list string)
    (qn : list ID → string → Opinions) (etas : gmap ID (etaResult F)) (tx : ID) :
  querySample rnd txs k nodes qn = Done etas → is_Some (etas !! tx) → tx ∈ txs.
Proof.
  unfold querySample. intros Hrun Hsome.
  apply run_bind_Done in Hrun as (selectedNodes & _ & Hrun).
  apply run_bind_Done in Hrun as (result & Hmerge & Hret). injection Hret as <-.
  unfold merge in Hmerge. rewrite merge_loop in Hmerge.
  destruct (decide (Forall _ (map (qn txs) selectedNodes))); [|done].
  injection Hmerge as <-. apply calculateEtas_dom in Hsome.
  by apply attributed_to_txs in Hsome.
Qed.

(** What a round leaves of a tx that is neither active nor sampled. *)
Lemma round_result (w : collaborators) (st st' : context F) (batch : list TxOpinion) :
  round w st = Done (batch, st') →
  ∃ st3 etas,
    getFinalizedTxs (updateOpinion (popTxs st)) = Done (batch, st3)
    ∧ querySample (rand_source w) (getActiveTxs st3) (p_k (parameters st3))
        (getKnownPeers w) (queryNode w) = Done etas
    ∧ st' = set_activeTxs (storeEtas etas (activeTxs st3)) st3.
Proof.
  unfold round. intros Hrun. apply run_bind_Done in Hrun as ([batch' st3] & Hfin & Hrun).
  apply run_bind_Done in Hrun as (etas & Hetas & Hret). cbn [fst snd] in *.
  injection Hret as <- <-. by exists st3, etas.
Qed.

Lemma not_sampled (w : collaborators) (st3 : context F) (etas : gmap ID (etaResult F)) (tx : ID) :
  querySample (rand_source w) (getActiveTxs st3) (p_k (parameters st3))
    (getKnownPeers w) (queryNode w) = Done etas →
  activeTxs st3 !! tx = None → etas !! tx = None.
Proof.
  intros Hetas Hnone. destruct (etas !! tx) as [eta|] eqn:Heta; [|done].
  assert (tx ∈ getActiveTxs st3) as Hin by (eapply querySample_dom; [done|by exists eta]).
  apply elem_of_keys in Hin as [? Hin]. by rewrite Hnone in Hin.
Qed.

(** The round that finalizes a tx retires it. *)
Lemma round_retires (w : collaborators) (st st' : context F) (batch : list TxOpinion) (tx : ID) :
  round w st = Done (batch, st') → tx ∈ TxHash <$> batch → retired tx st'.
Proof.
  intros (st3 & etas & Hfin & Hetas & ->)%round_result Hin.
  apply getFinalizedTxs_spec in Hfin as (_ & Hgone & _ & Hwaiting & _).
  destruct (Hgone tx Hin) as [Hom Hact].
  unfold retired. cbn [set_activeTxs waitingTxs activeTxs opinionHistory].
  split; [|split; [|done]].
  - rewrite Hwaiting. apply popTxs_fields.
  - rewrite storeEtas_lookup, (not_sampled w st3 etas tx Hetas Hact). done.
Qed.

(** A retired tx stays retired through a round, and is not in its batch. *)
Lemma round_keeps_retired (w : collaborators) (st st' : context F) (batch : list TxOpinion)
    (tx : ID) :
  retired tx st → round w st = Done (batch, st') →
  (tx ∉ TxHash <$> batch) ∧ retired tx st'.
Proof.
  intros (Hwaiting & Hact & Hom) (st3 & etas & Hfin & Hetas & ->)%round_result.
  rewrite (popTxs_nothing_waiting st Hwaiting) in Hfin.
  apply getFinalizedTxs_spec in Hfin as (Hactive & _ & Hframe & Hwaiting3 & _).
  assert (tx ∉ TxHash <$> batch) as Hnot.
  { intros Hin. apply Hactive in Hin as [eta Hin].
    destruct (updateOpinion_other_fields st) as (Heq & _). rewrite Heq, Hact in Hin. done. }
  split; [done|]. destruct (Hframe tx Hnot) as [Hom3 Hact3].
  rewrite updateOpinion_history, Hact, Hom in Hom3.
  destruct (updateOpinion_other_fields st) as (Heq & Hw & _). rewrite Heq, Hact in Hact3.
  unfold retired. cbn [set_activeTxs waitingTxs activeTxs opinionHistory].
  split; [by rewrite Hwaiting3, Hw|]. split; [|done].
  rewrite storeEtas_lookup, (not_sampled w st3 etas tx Hetas Hact3). done.
Qed.

Lemma run_ticks_keeps_retired (evs : list (tick_event F)) (st stn : context F)
    (batches : list (list TxOpinion)) (tx : ID) :
  retired tx st → run_ticks evs st = Done (batches, stn) →
  Forall (λ batch, tx ∉ TxHash <$> batch) batches ∧ retired tx stn.
Proof.
  revert st batches. induction evs as [|ev evs IH]; intros st batches Hret Hrun.
  - cbn in Hrun. injection Hrun as <- <-. by split.
  - cbn [run_ticks] in Hrun. apply run_bind_Done in Hrun as ([batch st1] & Htick & Hrun).
    apply run_bind_Done in Hrun as ([batches' stn'] & Hrest & Hdone).
    cbn [fst snd] in *. injection Hdone as <- <-.
    unfold Tick in Htick.
    assert (retired tx (set_tick (newTick (ev_index ev) (ev_random ev)) st)) as Hret'
      by (by destruct st).
    destruct (round_keeps_retired _ _ _ _ tx Hret' Htick) as [Hnot Hret1].
    destruct (IH st1 batches' Hret1 Hrest) as [Hall Hretn].
    split; [by constructor|done].
Qed.

Lemma retired_interim (tx : ID) (st : context F) :
  retired tx st → GetInterimOpinion st [tx] = [false].
Proof.
  intros (_ & _ & Hom). rewrite GetInterimOpinion_map. cbn [map]. unfold interim, Load.
  by rewrite Hom.
Qed.

(** C4 (amended): once a tx is in the finalized batch of a round, it is
    deleted from ActiveSet and from the history store in that same round,
    and, for every sequence of ticks that follows (with no new submission),
    it stays out of both, no later batch contains it, and
    [GetInterimOpinion] reports for it not an absent opinion but [false]
    (Dislike), whatever opinion it was finalized with. *)
Theorem finalized_tx_is_retired (w : collaborators) (st st1 : context F)
    (batch : list TxOpinion) (tx : ID) :
  round w st = Done (batch, st1) → tx ∈ TxHash <$> batch →
  (activeTxs st1 !! tx = None ∧ opinionHistory st1 !! tx = None
   ∧ GetInterimOpinion st1 [tx] = [false])
  ∧ ∀ (evs : list (tick_event F)) (batches : list (list TxOpinion)) (stn : context F),
      run_ticks evs st1 = Done (batches, stn) →
      Forall (λ later, tx ∉ TxHash <$> later) batches
      ∧ activeTxs stn !! tx = None ∧ opinionHistory stn !! tx = None
      ∧ GetInterimOpinion stn [tx] = [false].
Proof.
  intros Hround Hin. pose proof (round_retires w st st1 batch tx Hround Hin) as Hret.
  split.
  - pose proof (retired_interim tx st1 Hret). by destruct Hret as (_ & ? & ?).
  - intros evs batches stn Hrun.
    destruct (run_ticks_keeps_retired evs st1 stn batches tx Hret Hrun) as [Hall Hretn].
    pose proof (retired_interim tx stn Hretn). by destruct Hretn as (_ & ? & ?).
Qed.
End Retirement.

Lemma finalized_tx_is_retired_witness :
  (activeTxs after_final_S1 !! "T"%string = None
   ∧ opinionHistory after_final_S1 !! "T"%string = None
   ∧ GetInterimOpinion after_final_S1 ["T"%string] = [false])
  ∧ ∀ (evs : list (tick_event Q)) (batches : list (list TxOpinion)) (stn : context Q),
      run_ticks evs after_final_S1 = Done (batches, stn) →
      Forall (λ later, "T"%string ∉ TxHash <$> later) batches
      ∧ activeTxs stn !! "T"%string = None ∧ opinionHistory stn !! "T"%string = None
      ∧ GetInterimOpinion stn ["T"%string] = [false].
Proof.
  apply (finalized_tx_is_retired likes before_final_S1 after_final_S1
           [mkTxOpinion "T" Like] "T").
  - vm_compute. reflexivity.
  - vm_compute. left.
Defined.

(** C4, as stated, fails in its second part: after "T" was finalized with
    Like (scenario S1), its interim opinion is not absent: the result of
    [GetInterimOpinion] holds Dislike for it. *)
Lemma finalized_like_reads_dislike :
  ∃ batches st',
    run_ticks (replicate 6 tick_S1) submitted_S1 = Done (batches, st')
    ∧ last batches = Some [mkTxOpinion "T" Like]
    ∧ opinionHistory st' !! "T"%string = None
    ∧ GetInterimOpinion st' ["T"%string] = [Dislike]
    ∧ GetInterimOpinion st' ["T"%string] !! 0%nat ≠ None.
Proof.
  eexists _, _. split; [vm_compute; reflexivity|].
  split; [reflexivity|]. split; [reflexivity|]. split; [reflexivity|]. discriminate.
Qed.

(** ** The random value of a tick *)

Section TickValue.
Context {F : Type} `{!Float64 F}.

Lemma promote_histories (P : Opinions → Prop) (active0 : gmap ID (etaResult F))
    (st : context F) (newTx : TxOpinion) :
  (∀ o, P [o]) → histories_satisfy P st → histories_satisfy P (promote active0 st newTx).
Proof.
  intros HP Hst tx. unfold promote. destruct (active0 !! TxHash newTx); [apply Hst|].
  cbn [set_activeTxs set_opinionHistory activeTxs opinionHistory].
  destruct (decide (TxHash newTx = tx)) as [<-|Hne].
  - intros _. rewrite lookup_insert_eq. by exists [Opinion newTx].
  - rewrite !lookup_insert_ne by done. apply Hst.
Qed.

Lemma promote_loop_histories (P : Opinions → Prop) (active0 : gmap ID (etaResult F))
    (txs : list TxOpinion) (st : context F) :
  (∀ o, P [o]) → histories_satisfy P st →
  histories_satisfy P (foldl (promote active0) st txs).
Proof.
  intros HP. revert st. induction txs as [|newTx txs IH]; intros st Hst; [done|].
  cbn [foldl]. by apply IH, promote_histories.
Qed.

Lemma popTxs_histories (P : Opinions → Prop) (st : context F) :
  (∀ o, P [o]) → histories_satisfy P st → histories_satisfy P (popTxs st).
Proof.
  intros HP Hst. unfold popTxs.
  pose proof (promote_loop_histories P (activeTxs st) (waitingTxs st) st HP Hst) as Hloop.
  intros tx. apply Hloop.
Qed.

Lemma updateOpinion_histories (P Q : Opinions → Prop) (st : context F) :
  (∀ history o, P history → Q history ∧ Q (history ++ [o])) →
  histories_satisfy P st → histories_satisfy Q (updateOpinion st).
Proof.
  intros HPQ Hst tx [eta Heta]. destruct (updateOpinion_other_fields st) as (Hact & _).
  rewrite Hact in Heta. destruct (Hst tx) as (history & Hh & HP); [by exists eta|].
  rewrite updateOpinion_history, Heta, Hh. unfold updated.
  destruct (f_neqb (value eta) (f_of_int (-1))).
  - eexists. split; [done|]. by apply (HPQ history).
  - exists history. split; [done|]. by apply (HPQ history false).
Qed.

Lemma getFinalizedTxs_loop_returns (p : Parameters F) (keys : list ID) (acc : finalizing F) :
  NoDup keys → valid_window p →
  (∀ tx, tx ∈ keys →
     ∃ history, acc.1.2 !! tx = Some history ∧ history ≠ [] ∧ len history ≤ max_int) →
  returns (foldlM (getFinalizedTxs_body p) acc keys).
Proof.
  intros Hnd (Hm & Hl & Hml). revert acc Hnd.
  induction keys as [|k keys IH]; intros acc Hnd Hkeys; [by eexists|].
  apply NoDup_cons in Hnd as [Hk Hnd]. cbn [foldlM].
  destruct (Hkeys k) as (history & Hh & Hne & Hlen); [by left|].
  destruct (isFinal_from1_spec history (p_m p) (p_l p)) as (final & Hfinal & _); [done..|].
  unfold getFinalizedTxs_body at 1. unfold Load. rewrite Hh.
  change (default [] (Some history)) with history. rewrite Hfinal. cbn [run_bind].
  destruct final; cbn [run_bind].
  - apply IH; [done|]. intros tx Hin. cbn [fst snd]. unfold Delete.
    rewrite lookup_delete_ne by (intros ->; done). apply Hkeys. by right.
  - apply IH; [done|]. intros tx Hin. apply Hkeys. by right.
Qed.

(** On a state whose active txs all have a history, the first three phases
    of a round return. *)
Lemma phases_return (st : context F) :
  histories_present st → valid_window (parameters st) →
  returns (getFinalizedTxs (updateOpinion (popTxs st))).
Proof.
  intros Hst Hp.
  assert (returns (foldlM (getFinalizedTxs_body (parameters (updateOpinion (popTxs st))))
                     ([], opinionHistory (updateOpinion (popTxs st)),
                      activeTxs (updateOpinion (popTxs st)))
                     (map_to_list (activeTxs (updateOpinion (popTxs st)))).*1)) as [acc Hacc].
  { apply getFinalizedTxs_loop_returns.
    - apply NoDup_fst_map_to_list.
    - destruct (updateOpinion_other_fields (popTxs st)) as (_ & _ & -> & _).
      by destruct (popTxs_fields st) as (_ & -> & _).
    - intros tx Hin%elem_of_keys. cbn [fst snd].
      apply (updateOpinion_histories (λ history, history ≠ [] ∧ len history < max_int)
               (λ history, history ≠ [] ∧ len history ≤ max_int) (popTxs st)); [| |done].
      + intros history o [Hne Hlen]. split; [split; [done|lia]|].
        split; [by destruct history|]. rewrite len_app. unfold len at 2. simpl. lia.
      + apply popTxs_histories; [|done]. intros o. split; [done|]. vm_compute. done. }
  unfold getFinalizedTxs. rewrite Hacc. by eexists.
Qed.

(** C6 (amended): a tick stores its random value as it is given, inside or
    outside [[0,1]], without clamping; the thresholds of its round are
    computed from exactly that value; and on a state whose active txs all
    have a history, with a valid cooldown and window, the intake, update and
    finalization phases of the tick return whatever the value is. *)
Theorem tick_value_used_as_given (w : collaborators) (index : Z) (random : F) (st : context F) :
  Tick w index random st = round w (set_tick (newTick index random) st)
  ∧ tick_x (ctx_tick (set_tick (newTick index random) st)) = random
  ∧ (∀ history,
       threshold (popTxs (set_tick (newTick index random) st)) history
       = if len history =? 1
         then runif random (p_a (parameters st)) (p_b (parameters st))
         else runif random (p_beta (parameters st))
                (f_sub (f_of_int 1) (p_beta (parameters st))))
  ∧ (histories_present st → valid_window (parameters st) →
     returns (getFinalizedTxs
                (updateOpinion (popTxs (set_tick (newTick index random) st))))).
Proof.
  split; [done|]. split; [done|]. split.
  - intros history. unfold threshold.
    by destruct (popTxs_fields (set_tick (newTick index random) st)) as (_ & -> & ->).
  - intros Hst Hp. apply phases_return; [|done]. intros tx. apply Hst.
Qed.
End TickValue.

Lemma tick_value_used_as_given_witness :
  threshold (popTxs (set_tick (newTick 1 (2:Q)) state_three_quarters)) [Like]
  = runif (2:Q) (0:Q) (1#2)
  ∧ returns (getFinalizedTxs
               (updateOpinion (popTxs (set_tick (newTick 1 (2:Q)) state_three_quarters)))).
Proof.
  destruct (tick_value_used_as_given likes 1 (2:Q) state_three_quarters)
    as (_ & _ & Hthreshold & Hreturns).
  split; [apply (Hthreshold [Like])|]. apply Hreturns.
  - intros tx [eta Heta]. destruct (decide (tx = "T"%string)) as [->|Hne].
    + exists [Like]. split; [reflexivity|]. split; [discriminate|]. vm_compute. reflexivity.
    + unfold state_three_quarters in Heta. cbn [activeTxs] in Heta.
      by rewrite lookup_singleton_ne in Heta.
  - vm_compute. repeat split; discriminate.
Defined.

(** C6, as stated, fails: a tick with random value 2 is stored and used
    unclamped.  With [a = 0], [b = 1/2] and [eta = 3/4] the threshold is
    [0 + 2 (1/2 - 0) = 1] and Dislike is appended, whereas every value of
    [[0,1]] gives a threshold of at most 1/2 and Like. *)
Lemma tick_value_not_clamped :
  ∃ st', Tick likes 1 (2:Q) state_three_quarters = Done ([], st')
    ∧ tick_x (ctx_tick st') = (2:Q)
    ∧ opinionHistory st' !! "T"%string = Some [Like; Dislike]
    ∧ ∀ x' : Q, (0 <= x')%Q → (x' <= 1)%Q →
        f_gtb (3#4 : Q) (runif x' (0:Q) (1#2)) = Like.
Proof.
  eexists. split; [vm_compute; reflexivity|].
  split; [reflexivity|]. split; [reflexivity|].
  intros x' Hx0 Hx1. destruct (runif_between x' (0:Q) (1#2)) as [_ Hhi]; [done | done | done |].
  cbn [f_gtb exact]. apply negb_true_iff. apply not_true_iff_false.
  rewrite Qle_bool_iff. intros Hle.
  assert ((3#4) <= (1#2))%Q as Habs by (eapply Qle_trans; eassumption).
  vm_compute in Habs. by apply Habs.
Qed.

(** ** The order in which a map is ranged over

    Go ranges over a map in an unspecified order; the embedding ranges in
    the order of [map_to_list].  Neither the update phase nor the write-back
    of the etas depends on the order, and the finalization phase depends on
    it only through the order of the batch. *)

Section IterationOrder.
Context {F : Type} `{!Float64 F}.

(** X16: the history store that [updateOpinion] leaves does not depend on
    the order in which Go ranges over [activeTxs]: the loop run over any
    enumeration of the entries gives the same store. *)
Theorem updateOpinion_any_order (st : context F) (entries : list (ID * etaResult F)) :
  entries ≡ₚ map_to_list (activeTxs st) →
  foldl (updateOpinion_body st) (opinionHistory st) entries
  = opinionHistory (updateOpinion st).
Proof.
  intros Hp. assert (NoDup entries.*1) as Hnd.
  { rewrite Hp. apply NoDup_fst_map_to_list. }
  apply map_eq. intros tx. rewrite updateOpinion_history, updateOpinion_loop by done.
  rewrite (list_to_map_proper entries (map_to_list (activeTxs st))) by done.
  by rewrite list_to_map_to_list.
Qed.

(** X17: the ActiveSet that the last loop of [round] leaves does not depend
    on the order in which Go ranges over the eta map. *)
Theorem storeEtas_any_order (etas active : gmap ID (etaResult F))
    (entries : list (ID * etaResult F)) :
  entries ≡ₚ map_to_list etas →
  foldl (λ active (entry : ID * etaResult F), <[entry.1 := entry.2]> active) active entries
  = storeEtas etas active.
Proof.
  intros Hp. assert (NoDup entries.*1) as Hnd.
  { rewrite Hp. apply NoDup_fst_map_to_list. }
  apply map_eq. intros tx. rewrite storeEtas_lookup, storeEtas_loop by done.
  rewrite (list_to_map_proper entries (map_to_list etas)) by done.
  by rewrite list_to_map_to_list.
Qed.

(** The loop appends to the batch it is given and does not read it. *)
Lemma getFinalizedTxs_loop_batch (p : Parameters F) (keys : list ID)
    (finalized : list TxOpinion) (om : gmap ID Opinions) (active : gmap ID (etaResult F)) :
  foldlM (getFinalizedTxs_body p) (finalized, om, active) keys
  = (r <-! foldlM (getFinalizedTxs_body p) ([], om, active) keys ;;
     Done (finalized ++ r.1.1, r.1.2, r.2)).
Proof.
  revert finalized om active. induction keys as [|k keys IH]; intros finalized om active.
  - cbn. by rewrite app_nil_r.
  - cbn [foldlM]. unfold getFinalizedTxs_body at 1 3. cbn [fst snd].
    destruct (isFinal_from1 (default [] (Load k om)) (p_m p) (p_l p)) as [[]|]; cbn [run_bind].
    + rewrite (IH (finalized ++ _)), (IH ([] ++ _)).
      destruct (foldlM (getFinalizedTxs_body p) ([], Delete k om, delete k active) keys)
        as [[[new om'] act']|];
        cbn [run_bind fst snd]; [|done].
      by rewrite <- app_assoc.
    + apply IH.
    + done.
Qed.

Lemma getFinalizedTxs_loop_related (p : Parameters F) (keys : list ID)
    (acc acc' acc1 : finalizing F) :
  same_but_batch_order acc acc' →
  foldlM (getFinalizedTxs_body p) acc keys = Done acc1 →
  ∃ acc1', foldlM (getFinalizedTxs_body p) acc' keys = Done acc1'
           ∧ same_but_batch_order acc1 acc1'.
Proof.
  destruct acc as [[fin om] act], acc' as [[fin' om'] act'].
  intros (Hfin & Hom & Hact). cbn [fst snd] in *. subst om' act'.
  rewrite getFinalizedTxs_loop_batch, (getFinalizedTxs_loop_batch p keys fin').
  destruct (foldlM (getFinalizedTxs_body p) ([], om, act) keys) as [[[new om1] act1]|];
    cbn [run_bind fst snd]; [|done].
  intros [= <-]. eexists. split; [done|]. split; [|done]. cbn [fst snd]. by rewrite Hfin.
Qed.

(** Two distinct keys can be handled in either order. *)
Lemma getFinalizedTxs_body_swap (p : Parameters F) (acc acc2 : finalizing F) (j k : ID) :
  j ≠ k →
  (acc1 <-! getFinalizedTxs_body p acc j ;; getFinalizedTxs_body p acc1 k) = Done acc2 →
  ∃ acc2', (acc1 <-! getFinalizedTxs_body p acc k ;; getFinalizedTxs_body p acc1 j) = Done acc2'
           ∧ same_but_batch_order acc2 acc2'.
Proof.
  destruct acc as [[fin om] act]. intros Hne. unfold getFinalizedTxs_body, Load, Delete.
  cbn [fst snd].
  destruct (isFinal_from1 (default [] (om !! j)) (p_m p) (p_l p)) as [[]|] eqn:Hj;
    cbn [run_bind fst snd]; [| |done].
  - rewrite lookup_delete_ne by done.
    destruct (isFinal_from1 (default [] (om !! k)) (p_m p) (p_l p)) as [[]|] eqn:Hk;
      cbn [run_bind fst snd]; [| |done].
    + rewrite lookup_delete_ne by done. rewrite Hj. cbn [run_bind].
      intros [= <-]. eexists. split; [done|]. split; [|split]; cbn [fst snd].
      * rewrite <- !app_assoc. apply Permutation_app_head, perm_swap.
      * apply delete_delete.
      * apply delete_delete.
    + rewrite Hj. cbn [run_bind]. intros [= <-]. eexists. by split.
  - destruct (isFinal_from1 (default [] (om !! k)) (p_m p) (p_l p)) as [[]|] eqn:Hk;
      cbn [run_bind fst snd]; [| |done].
    + rewrite lookup_delete_ne by done. rewrite Hj. cbn [run_bind].
      intros [= <-]. eexists. by split.
    + rewrite Hj. cbn [run_bind]. intros [= <-]. eexists. by split.
Qed.

(** X5: when the finalization loop returns for one enumeration of the keys
    of ActiveSet, it returns for every other, with the same history store,
    the same ActiveSet, and the same batch up to its order. *)
Theorem getFinalizedTxs_any_order (p : Parameters F) (keys keys' : list ID)
    (acc acc1 : finalizing F) :
  keys ≡ₚ keys' → NoDup keys →
  foldlM (getFinalizedTxs_body p) acc keys = Done acc1 →
  ∃ acc1', foldlM (getFinalizedTxs_body p) acc keys' = Done acc1'
           ∧ same_but_batch_order acc1 acc1'.
Proof.
  intros Hp. revert acc acc1.
  induction Hp as [|k keys keys' Hp IH|j k keys|keys keys' keys'' Hp IH Hp' IH'];
    intros acc acc1 Hnd Hrun.
  - exists acc1. by split.
  - apply NoDup_cons in Hnd as [_ Hnd]. cbn [foldlM] in *.
    destruct (getFinalizedTxs_body p acc k) as [acc0|]; [|done]. cbn [run_bind] in *.
    by apply IH.
  - apply NoDup_cons in Hnd as [Hk%not_elem_of_cons _]. destruct Hk as [Hne _].
    cbn [foldlM] in *.
    destruct (run_bind (getFinalizedTxs_body p acc k) (λ acc0, getFinalizedTxs_body p acc0 j))
      as [acc2|] eqn:Htwo.
    + destruct (getFinalizedTxs_body_swap p acc acc2 k j Hne Htwo) as (acc2' & Htwo' & Hrel).
      assert (foldlM (getFinalizedTxs_body p) acc2 keys = Done acc1) as Hrest.
      { destruct (getFinalizedTxs_body p acc k) as [a|]; [|done]. cbn [run_bind] in *.
        destruct (getFinalizedTxs_body p a j) as [b|]; [|done]. cbn [run_bind] in *.
        by injection Htwo as <-. }
      destruct (getFinalizedTxs_loop_related p keys acc2 acc2' acc1 Hrel Hrest)
        as (acc1' & Hrun' & Hrel').
      exists acc1'. split; [|done].
      destruct (getFinalizedTxs_body p acc j) as [a|]; [|done]. cbn [run_bind] in *.
      destruct (getFinalizedTxs_body p a k) as [b|]; [|done]. cbn [run_bind] in *.
      by injection Htwo' as <-.
    + destruct (getFinalizedTxs_body p acc k) as [a|]; [|done]. cbn [run_bind] in *.
      destruct (getFinalizedTxs_body p a j) as [b|]; done.
  - destruct (IH acc acc1 Hnd Hrun) as (acc2 & Hrun2 & Hrel2).
    destruct (IH' acc acc2) as (acc3 & Hrun3 & Hrel3); [by rewrite <- Hp | done |].
    exists acc3. split; [done|].
    destruct Hrel2 as (? & ? & ?), Hrel3 as (? & ? & ?).
    split; [by etrans|]. split; congruence.
Qed.
End IterationOrder.

(** ** The order of the responses, the invariant of ActiveSet, and two
    scenarios *)

Section Extras.
Context {F : Type} `{!Float64 F}.

(** X1: the eta map of a round does not depend on the order in which the
    [k] responses arrive on the channel of [querySample]: merging and
    aggregating the responses in any two orders gives the same result, be it
    an eta map or the panic on a response that does not fit. *)
Theorem querySample_arrival_order (txs : list ID) (responses responses' : list Opinions) :
  responses ≡ₚ responses' →
  (result <-! merge txs responses ;; Done (calculateEtas (F:=F) result))
  = (result <-! merge txs responses' ;; Done (calculateEtas (F:=F) result)).
Proof.
  intros Hp. unfold merge. rewrite !merge_loop.
  destruct (decide (Forall (λ votes : Opinions, (length votes ≤ length txs)%nat) responses))
    as [Hfit|Hlong].
  - rewrite decide_True by by rewrite <- Hp. cbn [run_bind app]. f_equal.
    apply calculateEtas_Permutation. by apply Permutation_flat_map.
  - rewrite decide_False by by rewrite <- Hp. done.
Qed.

(** X2: a round that returns keeps the invariant that every tx of ActiveSet
    has a non-empty history. *)
Theorem round_keeps_active_have_history (w : collaborators) (st st' : context F)
    (batch : list TxOpinion) :
  round w st = Done (batch, st') → active_have_history st → active_have_history st'.
Proof.
  intros (st3 & etas & Hfin & Hetas & ->)%round_result Hst.
  assert (active_have_history (updateOpinion (popTxs st))) as Hst2.
  { apply (updateOpinion_histories (λ history, history ≠ []) (λ history, history ≠ [])).
    - intros history o Hne. split; [done|]. by destruct history.
    - by apply popTxs_histories. }
  apply getFinalizedTxs_spec in Hfin as (_ & Hgone & Hframe & _).
  intros tx Hactive. cbn [set_activeTxs activeTxs opinionHistory] in *.
  assert (is_Some (activeTxs st3 !! tx)) as Hactive3.
  { rewrite storeEtas_lookup in Hactive. destruct (etas !! tx) as [eta|] eqn:Heta; [|done].
    apply elem_of_keys. eapply querySample_dom; [done|by exists eta]. }
  destruct (decide (tx ∈ TxHash <$> batch)) as [Hin|Hnot].
  - destruct (Hgone tx Hin) as [_ Hnone]. rewrite Hnone in Hactive3. by destruct Hactive3.
  - destruct (Hframe tx Hnot) as [-> Hact]. apply Hst2. by rewrite <- Hact.
Qed.
End Extras.

Lemma querySample_arrival_order_witness :
  (result <-! merge ["T"; "U"]%string [[Like; Dislike]; [Dislike]] ;;
   Done (calculateEtas (F:=Q) result))
  = (result <-! merge ["T"; "U"]%string [[Dislike]; [Like; Dislike]] ;;
     Done (calculateEtas (F:=Q) result)).
Proof.
  apply (querySample_arrival_order (F:=Q)). apply perm_swap.
Defined.

Lemma getFinalizedTxs_any_order_witness :
  ∃ acc', foldlM (getFinalizedTxs_body params_S1) finalizing_two ["U"; "T"]%string = Done acc'
          ∧ same_but_batch_order
              ([mkTxOpinion "T" Like; mkTxOpinion "U" Dislike], ∅, ∅) acc'.
Proof.
  apply (getFinalizedTxs_any_order params_S1 ["T"; "U"]%string ["U"; "T"]%string
           finalizing_two).
  - apply perm_swap.
  - apply NoDup_cons. split; [|apply NoDup_singleton].
    intros Hin. elem_cases Hin. discriminate.
  - vm_compute. reflexivity.
Defined.

Lemma round_keeps_active_have_history_witness : active_have_history after_first_only.
Proof.
  apply (round_keeps_active_have_history first_only two_active after_first_only []).
  - vm_compute. reflexivity.
  - intros tx [eta Heta]. unfold two_active in *. cbn [activeTxs opinionHistory] in *.
    destruct (decide (tx = "T"%string)) as [->|HT].
    + exists [Like; Like]. by rewrite lookup_insert_eq.
    + destruct (decide (tx = "U"%string)) as [->|HU].
      * exists [Like; Dislike]. rewrite lookup_insert_ne by done.
        by rewrite lookup_singleton_eq.
      * rewrite lookup_insert_ne in Heta by done.
        by rewrite lookup_singleton_ne in Heta.
Defined.

(** Scenario S1 on float64: every peer likes "T" and every tick carries
    [x = 0.5]; the first five ticks finalize nothing, the sixth finalizes
    "T" with Like and leaves the engine empty. *)
Theorem scenario_S1_finalizes_like :
  ∃ st', run_ticks (replicate 6 tick_S1_binary64) submitted_S1_binary64
         = Done ([[]; []; []; []; []; [mkTxOpinion "T" Like]], st')
    ∧ opinionHistory st' = ∅ ∧ activeTxs st' = ∅.
Proof. eexists. split; [vm_compute; reflexivity|]. split; reflexivity. Qed.

(** Scenario S2 on float64: the peers alternate between unanimous Like
    and unanimous Dislike; within 100 rounds no batch finalizes anything and
    "T" is still under vote. *)
Theorem scenario_S2_never_finalizes :
  ∃ batches st', run_ticks ticks_S2 submitted_S1_binary64 = Done (batches, st')
    ∧ length batches = 100%nat
    ∧ Forall (λ batch, batch = []) batches
    ∧ is_Some (activeTxs st' !! "T"%string).
Proof.
  eexists _, _. split; [vm_compute; reflexivity|].
  split; [reflexivity|]. split; [|by eexists].
  repeat constructor.
Qed.

(** ** Edges of the finalization rule *)

Lemma wrap_above (z : Z) : max_int < z ≤ max_int - min_int → wrap z = z - 2 ^ int_bits.
Proof.
  unfold wrap, min_int, max_int, int_bits. intros Hz.
  rewrite <- (Z_mod_plus_full (z + 2 ^ (64 - 1)) (-1) (2 ^ 64)).
  rewrite Z.mod_small; lia.
Qed.

Lemma elem_at_negative {A} (s : list A) (i : Z) : i < 0 → elem_at s i = Panics IndexOutOfRange.
Proof. intros Hi. unfold elem_at. by replace (i <? 0) with true by lia. Qed.

(** X13: [isFinal] on a non-nil slice returns exactly when the slice is
    shorter than the machine sum [m + l] (then with [false]) or the window
    [l] is between 1 and the length of the slice; for every other window,
    [l <= 0] or [l > len(o)], the index [len(o) - l] is out of range and it
    panics. *)
Theorem isFinal_returns_iff_window_fits (o : Opinions) (m l : Z) :
  len o ≤ max_int → min_int ≤ l ≤ max_int →
  (returns (isFinal (Some o) m l) ↔ len o < int_add m l ∨ 1 ≤ l ≤ len o)
  ∧ (¬ (len o < int_add m l ∨ 1 ≤ l ≤ len o) →
     isFinal (Some o) m l = Panics IndexOutOfRange).
Proof.
  intros Ho Hl. pose proof (len_nonneg o) as Hlen. pose proof min_int_neg as Hmin.
  assert (max_int = - min_int - 1) as Hmax by reflexivity.
  unfold isFinal. destruct (len o <? int_add m l) eqn:Hlt.
  - apply Z.ltb_lt in Hlt. split; [|tauto]. split; [by left|by eexists].
  - apply Z.ltb_ge in Hlt.
    destruct (decide (1 ≤ l ≤ len o)) as [Hfits|Hnot].
    + split; [|tauto]. split; [by right|]. intros _. unfold int_sub, int_add.
      rewrite (wrap_id (len o - l)) by lia. rewrite (wrap_id (len o - l + 1)) by lia.
      destruct (elem_at_in_range o (len o - l)) as (v & _ & ->); [lia|].
      cbn [run_bind]. rewrite slice_from_in_range by lia. by eexists.
    + assert (elem_at o (int_sub (len o) l) = Panics IndexOutOfRange) as Hpanic.
      { unfold int_sub. destruct (decide (l ≤ 0)) as [Hneg|Hpos].
        - destruct (decide (len o - l ≤ max_int)).
          + rewrite wrap_id by lia. apply elem_at_out_of_range. lia.
          + rewrite wrap_above by lia. apply elem_at_negative.
            unfold int_bits. change (2 ^ 64) with (max_int - min_int + 1). lia.
        - rewrite wrap_id by lia. apply elem_at_negative. lia. }
      rewrite Hpanic. cbn [run_bind]. split; [|done].
      split; [by intros [? ?]|]. intros [?|?]; [lia|done].
Qed.

Lemma isFinal_returns_iff_window_fits_witness :
  isFinal (Some [Like; Like]) 1 0 = Panics IndexOutOfRange.
Proof.
  apply (isFinal_returns_iff_window_fits [Like; Like] 1 0);
    [vm_compute; discriminate | vm_compute; split; discriminate |].
  vm_compute. intros [H|[H _]]; [discriminate H | by apply H].
Defined.

(** ** The finalized batch *)

Section Batch.
Context {F : Type} `{!Float64 F}.

Lemma isFinal_from1_empty (m l : Z) : isFinal_from1 [] m l = Panics SliceBoundsOutOfRange.
Proof. done. Qed.

Lemma getFinalizedTxs_body_other (p : Parameters F) (acc acc1 : finalizing F) (k tx : ID) :
  getFinalizedTxs_body p acc k = Done acc1 → k ≠ tx →
  acc1.1.2 !! tx = acc.1.2 !! tx.
Proof.
  unfold getFinalizedTxs_body. intros (final & _ & Hbody)%run_bind_Done Hne.
  destruct final; injection Hbody as <-; [|done].
  cbn [fst snd]. unfold Delete. by rewrite lookup_delete_ne.
Qed.

(** The batch the loop adds: one entry, with its last opinion, for every key
    whose history passes the rule. *)
Lemma getFinalizedTxs_loop_exact (p : Parameters F) (keys : list ID) (acc acc' : finalizing F) :
  NoDup keys → foldlM (getFinalizedTxs_body p) acc keys = Done acc' →
  ∃ new : list TxOpinion,
    acc'.1.1 = acc.1.1 ++ new
    ∧ NoDup (TxHash <$> new)
    ∧ (∀ tx, tx ∈ keys →
         returns (isFinal_from1 (default [] (acc.1.2 !! tx)) (p_m p) (p_l p)))
    ∧ ∀ tx v, mkTxOpinion tx v ∈ new ↔
        tx ∈ keys
        ∧ isFinal_from1 (default [] (acc.1.2 !! tx)) (p_m p) (p_l p) = Done true
        ∧ v = (getLastOpinion (default [] (acc.1.2 !! tx))).1.
Proof.
  revert acc. induction keys as [|k keys IH]; intros acc Hnd Hrun.
  - cbn in Hrun. injection Hrun as <-. exists []. rewrite app_nil_r.
    split; [done|]. split; [constructor|]. split.
    + intros tx Hin. by apply elem_of_nil in Hin.
    + intros tx v. split; [by intros ?%elem_of_nil|]. by intros [?%elem_of_nil _].
  - apply NoDup_cons in Hnd as [Hk Hnd]. cbn [foldlM] in Hrun.
    apply run_bind_Done in Hrun as (acc1 & Hbody & Hrest).
    destruct (IH acc1 Hnd Hrest) as (new & Hnew & Hnodup & Hret & Hexact).
    assert (∀ tx, tx ∈ keys → acc1.1.2 !! tx = acc.1.2 !! tx) as Hsame.
    { intros tx Hin. eapply getFinalizedTxs_body_other; [done|]. by intros ->. }
    assert (∀ tx, tx ∈ TxHash <$> new → tx ∈ keys) as Hkeys.
    { intros tx ([tx' v] & -> & Hin)%list_elem_of_fmap. by apply Hexact in Hin as [? _]. }
    unfold getFinalizedTxs_body in Hbody. unfold Load in Hbody.
    apply run_bind_Done in Hbody as (final & Hfinal & Hbody). destruct final.
    + injection Hbody as <-. cbn [fst snd] in *.
      exists (mkTxOpinion k (getLastOpinion (default [] (acc.1.2 !! k))).1 :: new).
      split; [by rewrite Hnew, <- app_assoc|]. split; [|split].
      * rewrite fmap_cons. cbn [TxHash]. apply NoDup_cons. split; [|done].
        intros Hin. by apply Hk, Hkeys.
      * intros tx [->|Hin]%elem_of_cons; [by eexists|]. rewrite <- Hsame by done. by apply Hret.
      * intros tx v. rewrite !elem_of_cons. split.
        -- intros [[= -> ->]|Hin]; [by split; [left|]|].
           apply Hexact in Hin as (Hin & Hfin & ->). rewrite Hsame in Hfin |- * by done.
           split; [by right|done].
        -- intros ([->|Hin] & Hfin & ->); [by left|]. right. apply Hexact.
           by rewrite Hsame.
    + injection Hbody as <-. exists new. split; [done|]. split; [done|]. split.
      * intros tx [->|Hin]%elem_of_cons; [by eexists|]. by apply Hret.
      * intros tx v. rewrite elem_of_cons, Hexact. split.
        -- intros (Hin & ? & ?). split; [by right|done].
        -- intros ([->|Hin] & Hfin & ->); [|done]. rewrite Hfinal in Hfin. done.
Qed.

Lemma isFinal_from1_returns_nonempty (history : Opinions) (m l : Z) :
  returns (isFinal_from1 history m l) → history ≠ [].
Proof. intros [r Hr] ->. done. Qed.

(** X3: the batch of [getFinalizedTxs] holds no tx twice, and (for a valid
    cooldown and window, the histories being Go slices) it holds [(tx, v)]
    exactly when [tx] is in ActiveSet, its history has at least [m + l + 1]
    entries of which the last [l] are the same, and [v] is its last
    opinion. *)
Theorem getFinalizedTxs_batch_exact (st st' : context F) (batch : list TxOpinion) :
  getFinalizedTxs st = Done (batch, st') →
  valid_window (parameters st) →
  (∀ tx history, opinionHistory st !! tx = Some history → len history ≤ max_int) →
  NoDup (TxHash <$> batch)
  ∧ ∀ tx v, mkTxOpinion tx v ∈ batch ↔
      is_Some (activeTxs st !! tx)
      ∧ ∃ history, opinionHistory st !! tx = Some history
                   ∧ stable (p_m (parameters st)) (p_l (parameters st)) history
                   ∧ last history = Some v.
Proof.
  unfold getFinalizedTxs. intros (acc & Hloop & Hret)%run_bind_Done (Hm & Hl & Hml) Hfit.
  injection Hret as <- <-.
  apply getFinalizedTxs_loop_exact in Hloop as (new & Hnew & Hnodup & Hreturns & Hexact);
    [|apply NoDup_fst_map_to_list].
  cbn [fst snd app] in *. subst. split; [done|]. intros tx v.
  rewrite Hexact, elem_of_keys. split.
  - intros (Hactive & Hfin & ->). split; [done|].
    destruct (opinionHistory st !! tx) as [history|] eqn:Hh; [|done].
    change (default [] (Some history)) with history in *.
    assert (history ≠ []) as Hne.
    { apply (isFinal_from1_returns_nonempty history (p_m (parameters st))
               (p_l (parameters st))). by eexists. }
    exists history. split; [done|].
    destruct (isFinal_from1_spec history (p_m (parameters st)) (p_l (parameters st)))
      as (final & Hrun & Hiff); [done | by eapply Hfit | done..|].
    rewrite Hfin in Hrun. injection Hrun as <-. split; [by apply Hiff|].
    symmetry. apply getLastOpinion_last; [done|by eapply Hfit].
  - intros (Hactive & history & Hh & Hstable & Hlast). split; [done|]. rewrite Hh.
    change (default [] (Some history)) with history.
    assert (history ≠ []) as Hne by (by destruct history).
    destruct (isFinal_from1_spec history (p_m (parameters st)) (p_l (parameters st)))
      as (final & Hrun & Hiff); [done | by eapply Hfit | done..|].
    apply Hiff in Hstable as ->. split; [done|].
    pose proof (getLastOpinion_last history Hne (Hfit _ _ Hh)) as Hl'.
    rewrite Hlast in Hl'. by injection Hl' as ->.
Qed.
End Batch.

Lemma getFinalizedTxs_batch_exact_witness :
  NoDup (TxHash <$> [mkTxOpinion "T" Like])
  ∧ ∀ tx v, mkTxOpinion tx v ∈ [mkTxOpinion "T" Like] ↔
      is_Some (activeTxs (voting_T (replicate 6 Like)) !! tx)
      ∧ ∃ history, opinionHistory (voting_T (replicate 6 Like)) !! tx = Some history
                   ∧ stable 2 3 history ∧ last history = Some v.
Proof.
  apply (getFinalizedTxs_batch_exact (voting_T (replicate 6 Like))
           (mkContext ∅ ∅ [] params_S1 (newTick 0 (1#2)))).
  - vm_compute. reflexivity.
  - vm_compute. repeat split; discriminate.
  - intros tx history. unfold voting_T. cbn [opinionHistory].
    destruct (decide (tx = "T"%string)) as [->|Hne].
    + rewrite lookup_singleton_eq. intros [= <-]. vm_compute. discriminate.
    + by rewrite lookup_singleton_ne.
Defined.

Section FinalizationPanics.
Context {F : Type} `{!Float64 F}.

Lemma getFinalizedTxs_loop_panics (p : Parameters F) (keys : list ID) (acc : finalizing F) :
  NoDup keys → valid_window p →
  (∀ tx history, acc.1.2 !! tx = Some history → len history ≤ max_int) →
  Exists (λ tx, default [] (acc.1.2 !! tx) = []) keys →
  foldlM (getFinalizedTxs_body p) acc keys = Panics SliceBoundsOutOfRange.
Proof.
  intros Hnd (Hm & Hl & Hml). revert acc Hnd.
  induction keys as [|k keys IH]; intros acc Hnd Hfit Hbad; [by apply Exists_nil in Hbad|].
  apply NoDup_cons in Hnd as [Hk Hnd]. cbn [foldlM].
  destruct (default [] (acc.1.2 !! k)) as [|o history] eqn:Hh.
  - unfold getFinalizedTxs_body, Load. by rewrite Hh.
  - apply Exists_cons in Hbad as [Hbad|Hbad]; [congruence|].
    assert (acc.1.2 !! k = Some (o :: history)) as Hk'.
    { destruct (acc.1.2 !! k); [|done]. by rewrite <- Hh. }
    destruct (isFinal_from1_spec (o :: history) (p_m p) (p_l p)) as (final & Hfinal & _);
      [done | by eapply Hfit | done..|].
    destruct (getFinalizedTxs_body p acc k) as [acc1|] eqn:Hbody.
    + cbn [run_bind]. apply IH; [done| |].
      * intros tx h Htx. destruct (decide (k = tx)) as [<-|Hne].
        -- unfold getFinalizedTxs_body, Load in Hbody. rewrite Hh, Hfinal in Hbody.
           cbn [run_bind] in Hbody. destruct final; injection Hbody as <-.
           ++ cbn [fst snd] in Htx. unfold Delete in Htx. by rewrite lookup_delete_eq in Htx.
           ++ by eapply Hfit.
        -- rewrite (getFinalizedTxs_body_other p acc acc1 k tx Hbody Hne) in Htx.
           by eapply Hfit.
      * eapply Exists_impl; [done|]. intros tx Htx. cbn beta in *.
        destruct (decide (k = tx)) as [<-|Hne].
        -- unfold getFinalizedTxs_body, Load in Hbody. rewrite Hh, Hfinal in Hbody.
           cbn [run_bind] in Hbody. destruct final; injection Hbody as <-.
           ++ cbn [fst snd]. unfold Delete. by rewrite lookup_delete_eq.
           ++ done.
        -- by rewrite (getFinalizedTxs_body_other p acc acc1 k tx Hbody Hne).
    + unfold getFinalizedTxs_body, Load in Hbody. rewrite Hh, Hfinal in Hbody.
      cbn [run_bind] in Hbody. by destruct final.
Qed.

(** X4: for a valid cooldown and window (the histories being Go slices),
    [getFinalizedTxs] returns exactly when every tx of ActiveSet has a
    non-empty history; otherwise [history[1:]] of a nil or empty history
    panics with slice bounds out of range. *)
Theorem getFinalizedTxs_returns_iff_histories (st : context F) :
  valid_window (parameters st) →
  (∀ tx history, opinionHistory st !! tx = Some history → len history ≤ max_int) →
  (returns (getFinalizedTxs st) ↔ active_have_history st)
  ∧ (¬ active_have_history st → getFinalizedTxs st = Panics SliceBoundsOutOfRange).
Proof.
  intros Hp Hfit.
  assert (active_have_history st →
          returns (getFinalizedTxs st)) as Hreturns.
  { intros Hst.
    destruct (getFinalizedTxs_loop_returns (parameters st) (map_to_list (activeTxs st)).*1
                ([], opinionHistory st, activeTxs st)) as [acc Hacc];
      [apply NoDup_fst_map_to_list | done | |].
    - intros tx Hin%elem_of_keys. destruct (Hst tx Hin) as (history & Hh & Hne).
      exists history. split; [done|]. split; [done|]. by eapply Hfit.
    - unfold getFinalizedTxs. rewrite Hacc. by eexists. }
  assert (¬ active_have_history st →
          getFinalizedTxs st = Panics SliceBoundsOutOfRange) as Hpanics.
  { intros Hnot. unfold getFinalizedTxs.
    rewrite getFinalizedTxs_loop_panics; [done | apply NoDup_fst_map_to_list | done | done |].
    cbn [fst snd].
    destruct (decide (Forall (λ tx, default [] (opinionHistory st !! tx) ≠ [])
                        (map_to_list (activeTxs st)).*1)) as [Hall|Hex].
    - exfalso. apply Hnot. intros tx Hin%elem_of_keys.
      rewrite Forall_forall in Hall. specialize (Hall tx Hin).
      destruct (opinionHistory st !! tx) as [history|]; [|done]. by exists history.
    - apply not_Forall_Exists in Hex; [|apply _].
      eapply Exists_impl; [done|]. intros tx Htx. cbn beta in Htx.
      by destruct (decide (default [] (opinionHistory st !! tx) = [])). }
  split; [|done]. split; [|done].
  intros Hret. destruct (decide (Forall (λ tx, default [] (opinionHistory st !! tx) ≠ [])
                                   (map_to_list (activeTxs st)).*1)) as [Hall|Hex].
  - intros tx Hin%elem_of_keys. rewrite Forall_forall in Hall. specialize (Hall tx Hin).
    destruct (opinionHistory st !! tx) as [history|]; [|done]. by exists history.
  - rewrite Hpanics in Hret; [by destruct Hret|].
    intros Hst. apply Hex, Forall_forall. intros tx Hin%elem_of_keys.
    destruct (Hst tx Hin) as (history & -> & Hne). done.
Qed.
End FinalizationPanics.

(** "T" is in ActiveSet but the history store does not know it. *)
Lemma getFinalizedTxs_returns_iff_histories_witness :
  getFinalizedTxs
    (mkContext ∅ {["T"%string := mkEtaResult (1:Q) 3]} [] params_S1 (newTick 0 (1#2)))
  = Panics SliceBoundsOutOfRange.
Proof.
  apply getFinalizedTxs_returns_iff_histories.
  - vm_compute. repeat split; discriminate.
  - intros tx history. cbn [opinionHistory]. by rewrite lookup_empty.
  - intros Hst. destruct (Hst "T"%string) as (history & Hh & _); [by eexists|].
    cbn [opinionHistory] in Hh. by rewrite lookup_empty in Hh.
Defined.

(** ** The history of a tx through rounds *)

Section Histories.
Context {F : Type} `{!Float64 F}.

(** What the intake makes of a tx: nothing, or a fresh entry [{-1, 0}] with
    the history of one of its waiting submissions. *)
Lemma promote_loop_lookup (active0 : gmap ID (etaResult F)) (txs : list TxOpinion)
    (st : context F) (tx : ID) :
  (activeTxs (foldl (promote active0) st txs) !! tx = activeTxs st !! tx
   ∧ opinionHistory (foldl (promote active0) st txs) !! tx = opinionHistory st !! tx)
  ∨ ∃ o, mkTxOpinion tx o ∈ txs ∧ active0 !! tx = None
         ∧ activeTxs (foldl (promote active0) st txs) !! tx
           = Some (mkEtaResult (f_of_int (-1)) 0)
         ∧ opinionHistory (foldl (promote active0) st txs) !! tx = Some [o].
Proof.
  revert st. induction txs as [|[tx' o'] txs IH]; intros st; [by left|].
  cbn [foldl]. destruct (IH (promote active0 st (mkTxOpinion tx' o')))
    as [[Hact Hom]|(o & Hin & Hnone & Hact & Hom)].
  - rewrite Hact, Hom. unfold promote. cbn [TxHash Opinion].
    destruct (active0 !! tx') eqn:Hnew; [by left|].
    cbn [set_activeTxs set_opinionHistory activeTxs opinionHistory].
    destruct (decide (tx' = tx)) as [->|Hne].
    + right. exists o'. rewrite !lookup_insert_eq. split; [by left|done].
    + left. by rewrite !lookup_insert_ne.
  - right. exists o. split; [by right|done].
Qed.

Lemma popTxs_lookup (st : context F) (tx : ID) :
  (activeTxs (popTxs st) !! tx = activeTxs st !! tx
   ∧ opinionHistory (popTxs st) !! tx = opinionHistory st !! tx)
  ∨ ∃ o, mkTxOpinion tx o ∈ waitingTxs st ∧ activeTxs st !! tx = None
         ∧ activeTxs (popTxs st) !! tx = Some (mkEtaResult (f_of_int (-1)) 0)
         ∧ opinionHistory (popTxs st) !! tx = Some [o].
Proof.
  unfold popTxs. cbn [set_waitingTxs activeTxs opinionHistory]. apply promote_loop_lookup.
Qed.

(** The update reads the tick and the parameters of the state only. *)
Lemma updated_ext (st1 st2 : context F) (eta : option (etaResult F)) (history : option Opinions) :
  parameters st1 = parameters st2 → ctx_tick st1 = ctx_tick st2 →
  updated st1 eta history = updated st2 eta history.
Proof. intros Hp Ht. unfold updated, threshold. by rewrite Hp, Ht. Qed.

(** The fields a round leaves alone, and the history store it leaves. *)
Lemma round_fields (w : collaborators) (st st' : context F) (batch : list TxOpinion) :
  round w st = Done (batch, st') →
  waitingTxs st' = [] ∧ parameters st' = parameters st ∧ ctx_tick st' = ctx_tick st
  ∧ ∀ tx, opinionHistory st' !! tx
          = if decide (tx ∈ TxHash <$> batch) then None
            else opinionHistory (updateOpinion (popTxs st)) !! tx.
Proof.
  intros (st3 & etas & Hfin & Hetas & ->)%round_result.
  apply getFinalizedTxs_spec in Hfin as (_ & Hgone & Hframe & Hw & Hp & Ht).
  cbn [set_activeTxs waitingTxs parameters ctx_tick opinionHistory].
  destruct (updateOpinion_other_fields (popTxs st)) as (_ & Hw2 & Hp2 & Ht2).
  destruct (popTxs_fields st) as (Hw1 & Hp1 & Ht1).
  split; [congruence|]. split; [congruence|]. split; [congruence|].
  intros tx. destruct (decide (tx ∈ TxHash <$> batch)) as [Hin|Hnot].
  - by apply Hgone.
  - by apply Hframe.
Qed.

(** The batch of [getFinalizedTxs]: no tx twice, and every tx of it passed
    the rule. *)
Lemma getFinalizedTxs_batch (st st' : context F) (batch : list TxOpinion) :
  getFinalizedTxs st = Done (batch, st') →
  NoDup (TxHash <$> batch)
  ∧ ∀ tx, tx ∈ TxHash <$> batch →
      isFinal_from1 (default [] (opinionHistory st !! tx))
        (p_m (parameters st)) (p_l (parameters st)) = Done true.
Proof.
  unfold getFinalizedTxs. intros (acc & Hloop & Hret)%run_bind_Done. injection Hret as <- <-.
  apply getFinalizedTxs_loop_exact in Hloop as (new & Hnew & Hnodup & _ & Hexact);
    [|apply NoDup_fst_map_to_list].
  cbn [fst snd app] in *. subst. split; [done|].
  intros tx ([tx' v] & -> & Hin)%list_elem_of_fmap. by apply Hexact in Hin as (_ & Hfin & _).
Qed.

Lemma round_batch_NoDup (w : collaborators) (st st' : context F) (batch : list TxOpinion) :
  round w st = Done (batch, st') → NoDup (TxHash <$> batch).
Proof.
  intros (st3 & etas & Hfin & _)%round_result. by apply getFinalizedTxs_batch in Hfin as [? _].
Qed.

(** X6: ticks driven one after the other, with no submission in between,
    send one batch per tick and finalize no tx twice: over all the batches
    of the run, every tx hash occurs at most once. *)
Theorem run_ticks_finalizes_once (evs : list (tick_event F)) (st st' : context F)
    (batches : list (list TxOpinion)) :
  run_ticks evs st = Done (batches, st') →
  length batches = length evs ∧ NoDup (TxHash <$> mjoin batches).
Proof.
  revert st batches. induction evs as [|ev evs IH]; intros st batches Hrun.
  - cbn in Hrun. injection Hrun as <- <-. split; [done|constructor].
  - cbn [run_ticks] in Hrun. apply run_bind_Done in Hrun as ([batch st1] & Htick & Hrun).
    apply run_bind_Done in Hrun as ([batches' stn] & Hrest & Hdone).
    cbn [fst snd] in *. injection Hdone as <- <-.
    destruct (IH st1 batches' Hrest) as [Hlen Hnodup].
    split; [cbn [length]; by rewrite Hlen|].
    change (mjoin (batch :: batches')) with (batch ++ mjoin batches').
    rewrite fmap_app. apply NoDup_app. split; [|split; [|done]].
    + unfold Tick in Htick. by eapply round_batch_NoDup.
    + intros tx Hin Hlater. unfold Tick in Htick.
      pose proof (round_retires _ _ _ _ tx Htick Hin) as Hret.
      destruct (run_ticks_keeps_retired evs st1 stn batches' tx Hret Hrest) as [Hall _].
      apply list_elem_of_fmap in Hlater as (vote & -> & Hvote).
      apply list_elem_of_join in Hvote as (later & Hvote & Hlater).
      rewrite Forall_forall in Hall. apply (Hall later Hlater).
      apply list_elem_of_fmap. by exists vote.
Qed.

(** X7: what a round that returns makes of the history of a tx that was in
    ActiveSet when it began: deleted if the round finalizes the tx; else
    one opinion longer, the new opinion being [eta.value > threshold], if
    the tx had been sampled ([eta.value != -1]); else unchanged.  Nothing
    is ever removed from or changed in a history that is kept. *)
Theorem round_history_of_active (w : collaborators) (st st' : context F)
    (batch : list TxOpinion) (tx : ID) (eta : etaResult F) (history : Opinions) :
  round w st = Done (batch, st') →
  activeTxs st !! tx = Some eta → opinionHistory st !! tx = Some history →
  opinionHistory st' !! tx
  = if decide (tx ∈ TxHash <$> batch) then None
    else if f_neqb (value eta) (f_of_int (-1))
         then Some (history ++ [f_gtb (value eta) (threshold st history)])
         else Some history.
Proof.
  intros Hround Heta Hh. apply round_fields in Hround as (_ & _ & _ & ->).
  destruct (decide (tx ∈ TxHash <$> batch)); [done|].
  rewrite updateOpinion_history.
  destruct (popTxs_active st tx) as [-> ->]; [by exists eta|].
  destruct (popTxs_fields st) as (_ & Hp & Ht).
  rewrite (updated_ext (popTxs st) st _ _ Hp Ht), Heta, Hh. done.
Qed.

(** After [j] rounds without a history, a history has at most [j]
    entries. *)
Lemma round_young (w : collaborators) (st st' : context F) (batch : list TxOpinion)
    (tx : ID) (j : Z) :
  f_neqb (f_of_int (-1) : F) (f_of_int (-1)) = false → 0 ≤ j →
  (∀ history, opinionHistory st !! tx = Some history → len history ≤ j) →
  round w st = Done (batch, st') →
  (∀ history, opinionHistory st' !! tx = Some history → len history ≤ j + 1)
  ∧ (valid_window (parameters st) → j < p_m (parameters st) + p_l (parameters st) →
     tx ∉ TxHash <$> batch).
Proof.
  intros Hlaw Hj Hyoung Hround.
  assert (∀ history, opinionHistory (updateOpinion (popTxs st)) !! tx = Some history →
                     len history ≤ j + 1) as Hyoung2.
  { intros history. rewrite updateOpinion_history.
    destruct (popTxs_lookup st tx) as [[-> ->]|(o & _ & _ & -> & ->)].
    - unfold updated. destruct (activeTxs st !! tx) as [eta|];
        destruct (opinionHistory st !! tx) as [h|] eqn:Hh; try done.
      + specialize (Hyoung h eq_refl).
        destruct (f_neqb (value eta) (f_of_int (-1))); intros [= <-]; [|lia].
        rewrite len_app. unfold len at 2. simpl. lia.
      + intros [= <-]. specialize (Hyoung _ eq_refl). lia.
    - unfold updated. cbn [value]. rewrite Hlaw. intros [= <-]. unfold len. simpl. lia. }
  pose proof Hround as (st3 & etas & Hfin & _)%round_result.
  apply round_fields in Hround as (_ & _ & _ & Hom). split.
  - intros history. rewrite Hom. destruct (decide (tx ∈ TxHash <$> batch)); [done|].
    apply Hyoung2.
  - intros (Hm & Hl & Hml) Hcool Hin.
    apply getFinalizedTxs_batch in Hfin as [_ Hfinal]. specialize (Hfinal tx Hin).
    destruct (updateOpinion_other_fields (popTxs st)) as (_ & _ & Hp2 & _).
    destruct (popTxs_fields st) as (_ & Hp1 & _). rewrite Hp2, Hp1 in Hfinal.
    destruct (opinionHistory (updateOpinion (popTxs st)) !! tx) as [history|]; [|done].
    specialize (Hyoung2 history eq_refl).
    change (default [] (Some history)) with history in Hfinal.
    assert (history ≠ []) as Hne by (intros ->; done).
    destruct (isFinal_from1_spec history (p_m (parameters st)) (p_l (parameters st)))
      as (final & Hrun & Hiff); [done | lia | done..|].
    rewrite Hfinal in Hrun. injection Hrun as <-.
    destruct Hiff as [Hiff _]. destruct (Hiff eq_refl) as [Hlen _]. lia.
Qed.

(** X8: the cooldown.  A tx without a history (a new one, with [-1 != -1]
    false in float64) is finalized by none of the first [m + l] rounds that
    follow: at the earliest by round [m + l + 1], the round that promotes it
    being the first. *)
Theorem no_finalization_during_cooldown (evs : list (tick_event F)) (st st' : context F)
    (batches : list (list TxOpinion)) (tx : ID) :
  f_neqb (f_of_int (-1) : F) (f_of_int (-1)) = false →
  valid_window (parameters st) →
  opinionHistory st !! tx = None →
  run_ticks evs st = Done (batches, st') →
  ∀ (i : nat) batch, batches !! i = Some batch →
    Z.of_nat i < p_m (parameters st) + p_l (parameters st) →
    tx ∉ TxHash <$> batch.
Proof.
  intros Hlaw Hp Hnew Hrun.
  assert (∀ (j : nat) (i : nat) batch, batches !! i = Some batch →
            Z.of_nat (j + i) < p_m (parameters st) + p_l (parameters st) →
            (∀ history, opinionHistory st !! tx = Some history → len history ≤ Z.of_nat j) →
            tx ∉ TxHash <$> batch) as Hgen.
  { clear Hnew. revert st batches Hp Hrun.
    induction evs as [|ev evs IH]; intros st batches Hp Hrun j i batch Hi Hcool Hyoung.
    - cbn in Hrun. injection Hrun as <- <-. done.
    - cbn [run_ticks] in Hrun. apply run_bind_Done in Hrun as ([batch1 st1] & Htick & Hrun).
      apply run_bind_Done in Hrun as ([batches' stn] & Hrest & Hdone).
      cbn [fst snd] in *. injection Hdone as <- <-. unfold Tick in Htick.
      destruct (round_young (ev_world ev) (set_tick (newTick (ev_index ev) (ev_random ev)) st)
                  st1 batch1 tx (Z.of_nat j) Hlaw ltac:(lia) Hyoung Htick) as [Hyoung1 Hnot].
      apply round_fields in Htick as (_ & Hp1 & _). cbn [set_tick parameters] in Hp1, Hnot.
      destruct i as [|i].
      + injection Hi as <-. apply Hnot; [done|lia].
      + cbn [lookup list_lookup] in Hi.
        apply (IH st1 batches' ltac:(by rewrite Hp1) Hrest (S j) i batch Hi).
        * rewrite Hp1. lia.
        * intros history Hh. specialize (Hyoung1 history Hh). lia. }
  intros i batch Hi Hcool. apply (Hgen 0%nat i batch Hi); [done|].
  intros history. by rewrite Hnew.
Qed.
End Histories.

Lemma run_ticks_finalizes_once_witness :
  length [[]; []; []; []; []; [mkTxOpinion "T" Like]] = length (replicate 6 tick_S1)
  ∧ NoDup (TxHash <$> mjoin [[]; []; []; []; []; [mkTxOpinion "T" Like]]).
Proof.
  apply (run_ticks_finalizes_once (replicate 6 tick_S1) submitted_S1
           (mkContext ∅ ∅ [] params_S1 (newTick 0 (1#2)))).
  vm_compute. reflexivity.
Defined.

Lemma round_history_of_active_witness :
  opinionHistory after_first_only !! "U"%string
  = if decide ("U"%string ∈ TxHash <$> ([] : list TxOpinion)) then None
    else if f_neqb (value (mkEtaResult (1:Q) 3)) (f_of_int (-1))
         then Some ([Like; Dislike]
                      ++ [f_gtb (value (mkEtaResult (1:Q) 3))
                            (threshold two_active [Like; Dislike])])
         else Some [Like; Dislike].
Proof.
  apply (round_history_of_active first_only two_active after_first_only [] "U"%string
           (mkEtaResult (1:Q) 3) [Like; Dislike]).
  - vm_compute. reflexivity.
  - vm_compute. reflexivity.
  - vm_compute. reflexivity.
Defined.

(** In S1 the cooldown and the window make 5: the first five batches do not
    hold "T". *)
Lemma no_finalization_during_cooldown_witness :
  Forall (λ batch, "T"%string ∉ TxHash <$> batch)
    ([[]; []; []; []; []] : list (list TxOpinion)).
Proof.
  apply Forall_lookup_2. intros i batch Hi.
  apply (no_finalization_during_cooldown (replicate 5 tick_S1) submitted_S1 before_final_S1
           [[]; []; []; []; []] "T"%string) with (i := i).
  - vm_compute. reflexivity.
  - vm_compute. repeat split; discriminate.
  - vm_compute. reflexivity.
  - vm_compute. reflexivity.
  - exact Hi.
  - apply lookup_lt_Some in Hi. cbn [length] in Hi.
    change (p_m (parameters submitted_S1) + p_l (parameters submitted_S1)) with 5. lia.
Defined.

(** ** The states an engine reaches *)

Section Reachable.
Context {F : Type} `{!Float64 F}.

Lemma promote_consistent (active0 : gmap ID (etaResult F)) (st : context F) (newTx : TxOpinion) :
  store_consistent st → store_consistent (promote active0 st newTx).
Proof.
  intros [Hdom Hne]. unfold promote. destruct (active0 !! TxHash newTx); [done|].
  split; cbn [set_activeTxs set_opinionHistory activeTxs opinionHistory].
  - intros tx. destruct (decide (TxHash newTx = tx)) as [<-|Hneq].
    + rewrite !lookup_insert_eq. split; by eexists.
    + rewrite !lookup_insert_ne by done. apply Hdom.
  - intros tx history. destruct (decide (TxHash newTx = tx)) as [<-|Hneq].
    + rewrite lookup_insert_eq. by intros [= <-].
    + rewrite lookup_insert_ne by done. apply Hne.
Qed.

Lemma promote_loop_consistent (active0 : gmap ID (etaResult F)) (txs : list TxOpinion)
    (st : context F) :
  store_consistent st → store_consistent (foldl (promote active0) st txs).
Proof.
  revert st. induction txs as [|newTx txs IH]; intros st Hst; [done|].
  cbn [foldl]. by apply IH, promote_consistent.
Qed.

Lemma popTxs_consistent (st : context F) : store_consistent st → store_consistent (popTxs st).
Proof.
  intros Hst. exact (promote_loop_consistent (activeTxs st) (waitingTxs st) st Hst).
Qed.

Lemma updateOpinion_consistent (st : context F) :
  store_consistent st → store_consistent (updateOpinion st).
Proof.
  intros [Hdom Hne]. destruct (updateOpinion_other_fields st) as (Hact & _).
  assert (∀ tx history, opinionHistory (updateOpinion st) !! tx = Some history →
            history ≠ [] ∧ is_Some (opinionHistory st !! tx)) as Hup.
  { intros tx history. rewrite updateOpinion_history. unfold updated.
    destruct (activeTxs st !! tx) as [eta|]; destruct (opinionHistory st !! tx) as [h|] eqn:Hh;
      try done.
    - destruct (f_neqb (value eta) (f_of_int (-1))); intros [= <-].
      + split; [by destruct h|by eexists].
      + split; [by eapply Hne|by eexists].
    - intros [= <-]. split; [by eapply Hne|by eexists]. }
  split.
  - intros tx. rewrite Hact, Hdom. split.
    + intros [h Hh]. rewrite updateOpinion_history, Hh. unfold updated.
      destruct (activeTxs st !! tx) as [eta|]; [|by eexists].
      destruct (f_neqb (value eta) (f_of_int (-1))); by eexists.
    + intros [h Hh]. by apply Hup in Hh as [_ ?].
  - intros tx history Hh. by apply Hup in Hh as [? _].
Qed.

(** A round keeps the store and ActiveSet in step. *)
Lemma round_consistent (w : collaborators) (st st' : context F) (batch : list TxOpinion) :
  round w st = Done (batch, st') → store_consistent st → store_consistent st'.
Proof.
  intros (st3 & etas & Hfin & Hetas & ->)%round_result Hst.
  pose proof (updateOpinion_consistent _ (popTxs_consistent _ Hst)) as [Hdom Hne].
  apply getFinalizedTxs_spec in Hfin as (_ & Hgone & Hframe & _).
  assert (store_consistent st3) as [Hdom3 Hne3].
  { split.
    - intros tx. destruct (decide (tx ∈ TxHash <$> batch)) as [Hin|Hnot].
      + destruct (Hgone tx Hin) as [-> ->]. done.
      + destruct (Hframe tx Hnot) as [-> ->]. apply Hdom.
    - intros tx history. destruct (decide (tx ∈ TxHash <$> batch)) as [Hin|Hnot].
      + destruct (Hgone tx Hin) as [-> _]. done.
      + destruct (Hframe tx Hnot) as [-> _]. apply Hne. }
  split; cbn [set_activeTxs activeTxs opinionHistory]; [|done].
  intros tx. rewrite <- Hdom3, storeEtas_lookup.
  destruct (etas !! tx) as [eta|] eqn:Heta; [|done].
  split; [|by eexists]. intros _. apply elem_of_keys.
  eapply querySample_dom; [done|by exists eta].
Qed.

(** A round makes no history longer than one more opinion, and a new one
    no longer than two. *)
Lemma round_grows_by_one (w : collaborators) (st st' : context F) (batch : list TxOpinion)
    (n : Z) :
  1 ≤ n → (∀ tx history, opinionHistory st !! tx = Some history → len history ≤ n) →
  round w st = Done (batch, st') →
  ∀ tx history, opinionHistory st' !! tx = Some history → len history ≤ n + 1.
Proof.
  intros Hn Hst (_ & _ & _ & Hom)%round_fields tx history. rewrite Hom.
  destruct (decide (tx ∈ TxHash <$> batch)); [done|].
  rewrite updateOpinion_history. unfold updated.
  assert (∀ h, opinionHistory (popTxs st) !! tx = Some h → len h ≤ n) as Hpop.
  { intros h. destruct (popTxs_lookup st tx) as [[_ ->]|(o & _ & _ & _ & ->)]; [apply Hst|].
    intros [= <-]. unfold len. simpl. lia. }
  destruct (activeTxs (popTxs st) !! tx) as [eta|];
    destruct (opinionHistory (popTxs st) !! tx) as [h|]; try done.
  - specialize (Hpop h eq_refl).
    destruct (f_neqb (value eta) (f_of_int (-1))); intros [= <-]; [|lia].
    rewrite len_app. unfold len at 2. simpl. lia.
  - intros [= <-]. specialize (Hpop _ eq_refl). lia.
Qed.

Lemma run_calls_invariant (calls : list (call F)) (st st' : context F)
    (batches : list (list TxOpinion)) (n : Z) :
  0 ≤ n → store_consistent st →
  (∀ tx history, opinionHistory st !! tx = Some history → len history ≤ 1 + n) →
  run_calls calls st = Done (batches, st') →
  store_consistent st'
  ∧ (∀ tx history, opinionHistory st' !! tx = Some history → len history ≤ 1 + n + len batches)
  ∧ parameters st' = parameters st.
Proof.
  revert st batches n. induction calls as [|[txs|ev] calls IH]; intros st batches n Hn Hst Hlen Hrun.
  - cbn in Hrun. injection Hrun as <- <-. split; [done|]. split; [|done].
    intros tx history Hh. specialize (Hlen tx history Hh). unfold len at 2. simpl. lia.
  - cbn [run_calls] in Hrun. by apply (IH _ _ n) in Hrun.
  - cbn [run_calls] in Hrun. apply run_bind_Done in Hrun as ([batch st1] & Htick & Hrun).
    apply run_bind_Done in Hrun as ([batches' stn] & Hrest & Hdone).
    cbn [fst snd] in *. injection Hdone as <- <-. unfold Tick in Htick.
    pose proof (round_consistent _ _ _ _ Htick Hst) as Hst1.
    pose proof (round_grows_by_one (ev_world ev)
                  (set_tick (newTick (ev_index ev) (ev_random ev)) st) st1 batch (1 + n)
                  ltac:(lia) Hlen Htick) as Hlen1.
    apply round_fields in Htick as (_ & Hp1 & _). cbn [set_tick parameters] in Hp1.
    destruct (IH st1 batches' (n + 1) ltac:(lia) Hst1) as (Hstn & Hlenn & Hpn); [|done|].
    { intros tx history Hh. specialize (Hlen1 tx history Hh). lia. }
    split; [done|]. split; [|congruence].
    intros tx history Hh. specialize (Hlenn tx history Hh). rewrite len_cons. lia.
Qed.

(** X9: every state an engine reaches from [newContext] through
    [SubmitTxsForVoting] and [Tick] keeps the history store and ActiveSet in
    step: they hold the same txs, every stored history has at least one
    opinion and at most one more than the ticks so far, and the parameters
    are the ones the engine was made with.  So (for a valid cooldown and
    window, and fewer ticks than an [int] counts) the intake, the update and
    the finalization of the next tick do not panic: a round can panic in the
    sampler only. *)
Theorem reachable_store_consistent (p : Parameters F) (calls : list (call F))
    (batches : list (list TxOpinion)) (st : context F) :
  run_calls calls (newContext p) = Done (batches, st) →
  store_consistent st
  ∧ (∀ tx history, opinionHistory st !! tx = Some history → 1 ≤ len history ≤ 1 + len batches)
  ∧ parameters st = p
  ∧ (valid_window p → 1 + len batches < max_int →
     ∀ index random,
       returns (getFinalizedTxs (updateOpinion (popTxs (set_tick (newTick index random) st))))).
Proof.
  intros Hrun.
  apply (run_calls_invariant calls (newContext p) st batches 0) in Hrun
    as (Hst & Hlen & Hp); [|done| |].
  - assert (∀ tx history, opinionHistory st !! tx = Some history →
              1 ≤ len history ≤ 1 + len batches) as Hlen'.
    { intros tx history Hh. split; [|specialize (Hlen tx history Hh); lia].
      destruct Hst as [_ Hne]. specialize (Hne tx history Hh).
      destruct history; [done|]. rewrite len_cons. pose proof (len_nonneg history). lia. }
    split; [done|]. split; [done|]. split; [done|].
    intros Hwin Hticks index random. apply phases_return.
    + intros tx Hactive. cbn [set_tick activeTxs opinionHistory] in *.
      destruct Hst as [Hdom Hne]. apply Hdom in Hactive as [history Hh].
      exists history. split; [done|]. split; [by eapply Hne|].
      specialize (Hlen' tx history Hh). lia.
    + cbn [set_tick parameters]. by rewrite Hp.
  - split; cbn [newContext activeTxs opinionHistory].
    + intros tx. by rewrite !lookup_empty.
    + intros tx history. by rewrite lookup_empty.
  - intros tx history. cbn [newContext opinionHistory]. by rewrite lookup_empty.
Qed.
End Reachable.

Lemma reachable_store_consistent_witness :
  store_consistent after_first_tick_S1
  ∧ (∀ tx history, opinionHistory after_first_tick_S1 !! tx = Some history →
       1 ≤ len history ≤ 1 + len [([] : list TxOpinion)])
  ∧ parameters after_first_tick_S1 = params_S1
  ∧ (valid_window params_S1 → 1 + len [([] : list TxOpinion)] < max_int →
     ∀ index random,
       returns (getFinalizedTxs
                  (updateOpinion (popTxs (set_tick (newTick index random)
                                            after_first_tick_S1))))).
Proof.
  apply (reachable_store_consistent params_S1 calls_S1 [[]] after_first_tick_S1).
  vm_compute. reflexivity.
Defined.

(** ** The selection of peers *)

Lemma choose_loop (rnd : nat → Z) (list_ : list string) (n a : nat) (chosen : list string) :
  list_ ≠ [] → (a + n ≤ length chosen)%nat →
  foldlM (λ chosen i,
            j <-! Intn (rnd i) (len list_) ;;
            node <-! elem_at list_ j ;;
            Done (<[i := node]> chosen))
         chosen (seq a n)
  = Done (take a chosen ++ map (draw rnd list_) (seq a n) ++ drop (a + n) chosen).
Proof.
  intros Hne. revert a chosen. induction n as [|n IH]; intros a chosen Hlen.
  - cbn [seq foldlM map app]. by rewrite Nat.add_0_r, take_drop.
  - cbn [seq foldlM]. unfold Intn at 1.
    assert (0 < len list_) as Hpos.
    { destruct list_; [done|]. rewrite len_cons. pose proof (len_nonneg list_). lia. }
    replace (len list_ <=? 0) with false by lia. cbn [run_bind].
    destruct (elem_at_in_range list_ (rnd a mod len list_)) as (node & Hnode & ->);
      [by apply Z.mod_pos_bound|].
    cbn [run_bind]. rewrite IH by (rewrite length_insert; lia).
    f_equal. cbn [map].
    assert (draw rnd list_ a = node) as ->.
    { unfold draw. apply nth_lookup_Some with (d := ""%string) in Hnode. done. }
    rewrite drop_insert_lt by lia.
    rewrite (take_S_r (<[a:=node]> chosen) a node) by (apply list_lookup_insert_eq; lia).
    rewrite take_insert_ge by lia. rewrite <- app_assoc. cbn [app].
    by replace (S a + n)%nat with (a + S n)%nat by lia.
Qed.

Lemma choose_eq (rnd : nat → Z) (list_ : list string) (k : Z) :
  choose rnd list_ k
  = (if k <? 0 then Panics MakeLenOutOfRange
     else if (0 <? k) && (len list_ =? 0) then Panics IntnInvalidArgument
     else Done (map (draw rnd list_) (seq 0 (Z.to_nat k)))).
Proof.
  unfold choose. destruct (k <? 0) eqn:Hk; [done|]. apply Z.ltb_ge in Hk.
  destruct (decide (list_ = [])) as [->|Hne].
  - destruct (0 <? k) eqn:Hpos.
    + apply Z.ltb_lt in Hpos. cbn [andb]. change (len [] =? 0) with true.
      destruct (Z.to_nat k) as [|n] eqn:Hn; [lia|]. done.
    + apply Z.ltb_ge in Hpos. replace k with 0 by lia. done.
  - replace (len list_ =? 0) with false; last first.
    { destruct list_; [done|]. rewrite len_cons. pose proof (len_nonneg list_). lia. }
    rewrite andb_false_r. rewrite choose_loop; [|done|by rewrite length_replicate].
    cbn [take app]. rewrite drop_ge by (rewrite length_replicate; lia).
    by rewrite app_nil_r.
Qed.

Lemma choose_length (rnd : nat → Z) (list_ : list string) (k : Z) (chosen : list string) :
  choose rnd list_ k = Done chosen → len chosen = k.
Proof.
  rewrite choose_eq. destruct (k <? 0) eqn:Hk; [done|]. apply Z.ltb_ge in Hk.
  destruct ((0 <? k) && (len list_ =? 0)); [done|]. intros [= <-].
  unfold len. rewrite length_map, length_seq. lia.
Qed.

(** X10: [choose] in closed form.  A negative [k] panics in [make]; a
    positive [k] with no node to choose from panics in [rand.Intn(0)]; in
    every other case the index is in range and [k] nodes are returned, the
    [i]-th being the node at the index of the [i]-th draw: every chosen node
    is one of the list, and one node can be chosen more than once. *)
Theorem choose_closed_form (rnd : nat → Z) (list_ : list string) (k : Z) :
  choose rnd list_ k
  = (if k <? 0 then Panics MakeLenOutOfRange
     else if (0 <? k) && (len list_ =? 0) then Panics IntnInvalidArgument
     else Done (map (draw rnd list_) (seq 0 (Z.to_nat k))))
  ∧ ∀ chosen, choose rnd list_ k = Done chosen →
      len chosen = k ∧ ∀ node, node ∈ chosen → node ∈ list_.
Proof.
  split; [apply choose_eq|]. intros chosen Hchosen.
  split; [by eapply choose_length|]. revert Hchosen. rewrite choose_eq.
  destruct (k <? 0) eqn:Hk; [done|]. apply Z.ltb_ge in Hk.
  destruct ((0 <? k) && (len list_ =? 0)) eqn:Hempty; [done|]. intros [= <-].
  intros node (i & -> & Hi%elem_of_seq)%list_elem_of_fmap. unfold draw.
  assert (0 < len list_) as Hpos.
  { apply andb_false_iff in Hempty as [Hz|Hz]; [lia|].
    pose proof (len_nonneg list_). lia. }
  apply list_elem_of_In, nth_In.
  pose proof (Z.mod_pos_bound (rnd i) (len list_) Hpos). unfold len in *. lia.
Qed.

(** ** The votes a tx receives *)

Lemma votes_on_app (tx : ID) (votes votes' : list TxOpinion) :
  votes_on tx (votes ++ votes') = votes_on tx votes ++ votes_on tx votes'.
Proof. unfold votes_on. by rewrite filter_app, fmap_app. Qed.

Lemma votes_on_not_asked (tx : ID) (txs : list ID) (votes : Opinions) :
  tx ∉ txs → votes_on tx (zip_with mkTxOpinion txs votes) = [].
Proof.
  revert votes. induction txs as [|t txs IH]; intros votes Hnot; [done|].
  apply not_elem_of_cons in Hnot as [Hne Hnot]. destruct votes as [|v votes]; [done|].
  cbn [zip_with]. unfold votes_on in *. rewrite filter_cons. cbn [TxHash].
  rewrite decide_False by done. by apply IH.
Qed.

(** By position: the votes a response gives to the tx asked at position
    [i]. *)
Lemma votes_on_zip (tx : ID) (txs : list ID) (votes : Opinions) (i : nat) :
  NoDup txs → txs !! i = Some tx →
  votes_on tx (zip_with mkTxOpinion txs votes) = option_list (votes !! i).
Proof.
  revert votes i. induction txs as [|t txs IH]; intros votes i Hnd Hi; [done|].
  apply NoDup_cons in Hnd as [Ht Hnd]. destruct votes as [|v votes]; [done|].
  cbn [zip_with]. unfold votes_on in *. rewrite filter_cons. cbn [TxHash].
  destruct i as [|i].
  - injection Hi as ->. rewrite decide_True by done. rewrite fmap_cons. cbn [Opinion].
    fold (votes_on tx (zip_with mkTxOpinion txs votes)).
    by rewrite votes_on_not_asked.
  - cbn [lookup list_lookup] in Hi. change ((v :: votes) !! S i) with (votes !! i).
    rewrite decide_False; [by apply IH|].
    intros ->. apply Ht. by eapply list_elem_of_lookup_2.
Qed.

Lemma votes_on_responses (tx : ID) (txs : list ID) (responses : list Opinions) (i : nat) :
  NoDup txs → txs !! i = Some tx →
  votes_on tx (flat_map (zip_with mkTxOpinion txs) responses) = reaching i responses.
Proof.
  intros Hnd Hi. induction responses as [|votes responses IH]; [done|].
  cbn [flat_map]. rewrite votes_on_app, IH, (votes_on_zip tx txs votes i Hnd Hi).
  unfold reaching. cbn [omap list_omap]. by destruct (votes !! i).
Qed.

Lemma length_reaching (i : nat) (responses : list Opinions) :
  (length (reaching i responses) ≤ length responses)%nat.
Proof.
  induction responses as [|votes responses IH]; [done|].
  unfold reaching in *. cbn [omap list_omap]. destruct (votes !! i); cbn [length]; lia.
Qed.

Section Sampling.
Context {F : Type} `{!Float64 F}.

(** X11: the eta of the tx asked at position [i] is made of the [i]-th
    opinions of the responses that reach position [i]: a response that is
    empty or too short for [i] does not count for that tx.  The count is
    their number, at least 1 and at most the fanout [k]; a tx no response
    reaches gets no eta. *)
Theorem querySample_eta_by_position (rnd : nat → Z) (txs : list ID) (k : Z)
    (nodes : list string) (qn : list ID → string → Opinions)
    (etas : gmap ID (etaResult F)) (i : nat) (tx : ID) :
  NoDup txs → txs !! i = Some tx → k ≤ max_int →
  querySample rnd txs k nodes qn = Done etas →
  ∃ selectedNodes, choose rnd nodes k = Done selectedNodes
    ∧ etas !! tx = eta_of (reaching i (map (qn txs) selectedNodes))
    ∧ (reaching i (map (qn txs) selectedNodes) = [] ↔ etas !! tx = None)
    ∧ ∀ eta, etas !! tx = Some eta →
        count eta = len (reaching i (map (qn txs) selectedNodes)) ∧ 1 ≤ count eta ≤ k.
Proof.
  intros Hnd Hi Hk Hrun. unfold querySample in Hrun.
  apply run_bind_Done in Hrun as (selectedNodes & Hchoose & Hrun).
  apply run_bind_Done in Hrun as (result & Hmerge & Hret). injection Hret as <-.
  unfold merge in Hmerge. rewrite merge_loop in Hmerge.
  destruct (decide (Forall _ (map (qn txs) selectedNodes))); [|done].
  injection Hmerge as <-. cbn [app].
  exists selectedNodes. split; [done|].
  rewrite calculateEtas_lookup, (votes_on_responses tx txs _ i Hnd Hi).
  split; [done|].
  pose proof (length_reaching i (map (qn txs) selectedNodes)) as Hle.
  rewrite length_map in Hle.
  assert (len selectedNodes = k) as Hlen.
  { by eapply choose_length. }
  destruct (reaching i (map (qn txs) selectedNodes)) as [|o opinions] eqn:Hreach.
  - split; [done|]. intros eta. done.
  - split; [done|]. intros eta [= <-]. cbn [count].
    change (int_add (int_count (length opinions)) 1)
      with (int_count (length (o :: opinions))).
    unfold len in *. rewrite int_count_small by lia. cbn [length] in *. lia.
Qed.
End Sampling.

(** "U" is asked at position 1; of three responses, the first and the last
    reach it. *)
Lemma querySample_eta_by_position_witness :
  ∃ selectedNodes,
    choose (λ i, Z.of_nat i) ["n1"; "n2"; "n3"]%string 3 = Done selectedNodes
    ∧ calculateEtas (F:=Q)
        [mkTxOpinion "T" Like; mkTxOpinion "U" Like; mkTxOpinion "T" Like;
         mkTxOpinion "T" Like; mkTxOpinion "U" Dislike] !! "U"%string
      = eta_of (reaching 1 (map (λ node, if String.eqb node "n2" then [Like]
                                          else if String.eqb node "n1" then [Like; Like]
                                          else [Like; Dislike]) selectedNodes))
    ∧ (reaching 1 (map (λ node, if String.eqb node "n2" then [Like]
                                 else if String.eqb node "n1" then [Like; Like]
                                 else [Like; Dislike]) selectedNodes) = []
       ↔ calculateEtas (F:=Q)
           [mkTxOpinion "T" Like; mkTxOpinion "U" Like; mkTxOpinion "T" Like;
            mkTxOpinion "T" Like; mkTxOpinion "U" Dislike] !! "U"%string = None)
    ∧ ∀ eta, calculateEtas (F:=Q)
               [mkTxOpinion "T" Like; mkTxOpinion "U" Like; mkTxOpinion "T" Like;
                mkTxOpinion "T" Like; mkTxOpinion "U" Dislike] !! "U"%string = Some eta →
        count eta = len (reaching 1 (map (λ node, if String.eqb node "n2" then [Like]
                                                  else if String.eqb node "n1" then [Like; Like]
                                                  else [Like; Dislike]) selectedNodes))
        ∧ 1 ≤ count eta ≤ 3.
Proof.
  apply (querySample_eta_by_position (F:=Q) (λ i, Z.of_nat i) ["T"; "U"]%string 3
           ["n1"; "n2"; "n3"]%string
           (λ _ node, if String.eqb node "n2" then [Like]
                      else if String.eqb node "n1" then [Like; Like] else [Like; Dislike])
           _ 1%nat "U"%string).
  - apply NoDup_cons. split; [|apply NoDup_singleton].
    intros Hin. elem_cases Hin. discriminate.
  - reflexivity.
  - vm_compute. discriminate.
  - vm_compute. reflexivity.
Defined.

(** ** The range of an eta *)

Lemma positives_le_length (opinions : Opinions) : (positives opinions ≤ length opinions)%nat.
Proof. unfold positives. apply length_filter. Qed.

Lemma length_votes_on_le (tx : ID) (votes : list TxOpinion) :
  (length (votes_on tx votes) ≤ length votes)%nat.
Proof. rewrite length_votes_on. apply length_filter. Qed.

(** X12: in exact arithmetic, an eta that [calculateEtas] returns has a
    value between 0 and 1 and a count between 1 and the number of votes.
    Its value is never the [-1] that marks a tx as not yet sampled, so
    [updateOpinion] appends an opinion for every tx the sampler returned an
    eta for. *)
Theorem sampled_eta_in_unit_interval (votes : list TxOpinion) (tx : ID) (eta : etaResult Q) :
  len votes ≤ max_int → calculateEtas votes !! tx = Some eta →
  (0 <= value eta)%Q ∧ (value eta <= 1)%Q
  ∧ 1 ≤ count eta ≤ len votes
  ∧ f_neqb (value eta) (f_of_int (-1)) = true.
Proof.
  intros Hlen. rewrite calculateEtas_lookup. unfold eta_of.
  pose proof (length_votes_on_le tx votes) as Hle.
  pose proof (positives_le_length (votes_on tx votes)) as Hpos.
  destruct (votes_on tx votes) as [|o opinions] eqn:Hvotes; [done|].
  intros Heta. apply (inj Some) in Heta. subst eta. cbn [value count]. unfold len in *.
  rewrite int_count_small by lia.
  set (n := length (o :: opinions)) in *. set (p := positives (o :: opinions)) in *.
  assert (0 < n)%nat as Hn by (subst n; cbn [length]; lia).
  assert (0 <= f_div (f_count p) (f_of_int (Z.of_nat n)) <= 1)%Q as [Hlo Hhi].
  { cbn [f_div f_of_int exact]. rewrite f_count_exact. split.
    - apply Qle_shift_div_l; [unfold Qlt; simpl; lia|].
      unfold Qle. simpl. lia.
    - apply Qle_shift_div_r; [unfold Qlt; simpl; lia|].
      unfold Qle. simpl. lia. }
  split; [done|]. split; [done|]. split; [lia|].
  cbn [f_neqb exact]. apply negb_true_iff, not_true_iff_false. intros Heq%Qeq_bool_iff.
  rewrite Heq in Hlo. revert Hlo. cbn [f_of_int exact]. unfold Qle. simpl. lia.
Qed.

Lemma sampled_eta_in_unit_interval_witness :
  (0 <= value (mkEtaResult (2 / 3)%Q 3))%Q ∧ (value (mkEtaResult (2 / 3)%Q 3) <= 1)%Q
  ∧ 1 ≤ count (mkEtaResult (2 / 3)%Q 3) ≤ len four_votes
  ∧ f_neqb (value (mkEtaResult (2 / 3)%Q 3)) (f_of_int (-1)) = true.
Proof.
  apply (sampled_eta_in_unit_interval four_votes "T"%string).
  - vm_compute. discriminate.
  - vm_compute. reflexivity.
Defined.

(** ** The last opinion *)

(** X15: [getLastOpinion] fails exactly on the empty list, with [false] and
    the error "opinion is empty"; on every other list (a Go slice) it
    returns the last element and no error. *)
Theorem getLastOpinion_error_iff_empty (list : Opinions) :
  len list ≤ max_int →
  (list = [] → getLastOpinion list = (false, Some "opinion is empty"%string))
  ∧ (∀ init o, list = init ++ [o] → getLastOpinion list = (o, None))
  ∧ ((getLastOpinion list).2 = None ↔ list ≠ []).
Proof.
  intros Hlen.
  assert (∀ init o, list = init ++ [o] → getLastOpinion list = (o, None)) as Hlast.
  { intros init o ->. unfold getLastOpinion. rewrite len_app in Hlen |- *.
    change (len [o]) with 1 in *. pose proof (len_nonneg init) as Hinit.
    replace (0 <? len init + 1) with true by lia.
    unfold int_sub. rewrite wrap_id by (pose proof min_int_neg; lia).
    replace (Z.to_nat (len init + 1 - 1)) with (length init) by (unfold len; lia).
    by rewrite list_lookup_middle. }
  split; [by intros ->|]. split; [done|]. split.
  - intros Hnone ->. done.
  - intros Hne. destruct (exists_last Hne) as (init & o & ->).
    by rewrite (Hlast init o).
Qed.

Lemma getLastOpinion_error_iff_empty_witness :
  getLastOpinion [Like; Dislike] = (Dislike, None).
Proof.
  assert (len [Like; Dislike] ≤ max_int) as Hlen by (vm_compute; discriminate).
  exact (proj1 (proj2 (getLastOpinion_error_iff_empty [Like; Dislike] Hlen))
           [Like] Dislike eq_refl).
Defined.

(** ** Looking a container up by its name *)

Section Existing.
Context {Client : Type}.

Lemma find_existing_skips (c : Client) (name : string) (before rest : list Container) :
  Forall (named_otherwise name) before →
  find_existing c name (before ++ rest) = find_existing c name rest.
Proof.
  induction 1 as [|cont before (first & Hfirst & Hne) _ IH]; [done|].
  cbn [app find_existing]. destruct (Names cont) as [|n names]; [done|].
  injection Hfirst as ->. change (elem_at (first :: names) 0) with (Done (A:=string) first).
  cbn [run_bind]. by rewrite (proj2 (String.eqb_neq first name) Hne).
Qed.

(** X14: [NewDockerContainerFromExisting] returns the first listed container
    whose first name is [name], with the client it was given: containers
    listed before it with another first name are passed over, the further
    names of a container are not looked at, and what is listed after it does
    not matter.  A container without any name that is reached first makes
    [cont.Names[0]] panic; when every container has another first name the
    error is "could not find container with name '...'"; and an error of the
    listing is handed on as it is. *)
Theorem NewDockerContainerFromExisting_first_match (c : Client) (name : string)
    (before after : list Container) (cont : Container) :
  Forall (named_otherwise name) before →
  (head (Names cont) = Some name →
     NewDockerContainerFromExisting c (before ++ cont :: after, None) name
     = Done (Some (mkDockerContainer c (ID_ cont)), None))
  ∧ (Names cont = [] →
     NewDockerContainerFromExisting c (before ++ cont :: after, None) name
     = Panics IndexOutOfRange)
  ∧ NewDockerContainerFromExisting c (before, None) name
    = Done (None, Some ("could not find container with name '" +:+ name +:+ "'")%string)
  ∧ ∀ err, NewDockerContainerFromExisting c (before ++ cont :: after, Some err) name
           = Done (None, Some err).
Proof.
  intros Hbefore. unfold NewDockerContainerFromExisting. cbn [fst snd].
  split; [|split; [|split; [|done]]].
  - intros Hname. rewrite find_existing_skips by done. cbn [find_existing].
    destruct (Names cont) as [|n names]; [done|]. injection Hname as ->.
    change (elem_at (name :: names) 0) with (Done (A:=string) name). cbn [run_bind].
    by rewrite String.eqb_refl.
  - intros Hnone. rewrite find_existing_skips by done. cbn [find_existing].
    by rewrite Hnone.
  - rewrite <- (app_nil_r before). by rewrite find_existing_skips.
Qed.
End Existing.

Lemma NewDockerContainerFromExisting_first_match_witness :
  NewDockerContainerFromExisting () (listed_three, None) "/peer"
  = Done (Some (mkDockerContainer () "c2"), None).
Proof.
  assert (Forall (named_otherwise "/peer") [mkContainer ["/entry"]%string "c1"]) as Hbefore.
  { constructor; [|constructor]. exists "/entry"%string. split; [reflexivity|discriminate]. }
  exact (proj1 (NewDockerContainerFromExisting_first_match () "/peer"
                  [mkContainer ["/entry"]%string "c1"] [mkContainer [] "c3"]
                  (mkContainer ["/peer"; "/alias"]%string "c2") Hbefore) eq_refl).
Defined.

Lemma updateOpinion_any_order_witness :
  foldl (updateOpinion_body two_active) (opinionHistory two_active)
    (reverse (map_to_list (activeTxs two_active)))
  = opinionHistory (updateOpinion two_active).
Proof.
  apply (updateOpinion_any_order two_active). apply reverse_Permutation.
Defined.

Lemma storeEtas_any_order_witness :
  foldl (λ active (entry : ID * etaResult Q), <[entry.1 := entry.2]> active)
    {["V"%string := mkEtaResult (0:Q) 1]} (reverse (map_to_list (activeTxs two_active)))
  = storeEtas (activeTxs two_active) {["V"%string := mkEtaResult (0:Q) 1]}.
Proof.
  apply (storeEtas_any_order (activeTxs two_active)). apply reverse_Permutation.
Defined.

(** ** Unanimous peers *)

Lemma positives_replicate (n : nat) (v : bool) :
  positives (replicate n v) = if v then n else 0%nat.
Proof.
  unfold positives. induction n as [|n IH]; [by destruct v|].
  cbn [replicate]. rewrite filter_cons. destruct v.
  - rewrite decide_True by done. cbn [length]. by rewrite IH.
  - rewrite decide_False by done. done.
Qed.

(** The eta of [n] votes that are all [v]: 1 for Like, 0 for Dislike. *)
Lemma eta_of_unanimous (n : nat) (v : bool) :
  (0 < n)%nat → Z.of_nat n ≤ max_int →
  ∃ e : etaResult Q, eta_of (replicate n v) = Some e
    ∧ (value e == if v then 1 else 0)%Q ∧ count e = Z.of_nat n.
Proof.
  intros Hn Hmax. destruct n as [|n]; [lia|].
  eexists. split; [reflexivity|]. cbn [value count].
  change (v :: replicate n v) with (replicate (S n) v).
  rewrite positives_replicate, length_replicate, int_count_small by done.
  split; [|done]. cbn [f_div f_of_int exact]. rewrite f_count_exact.
  assert (¬ (inject_Z (Z.of_nat (S n)) == 0)%Q) as Hnz.
  { unfold Qeq. simpl. lia. }
  destruct v.
  - by field.
  - change (inject_Z (Z.of_nat 0)) with 0%Q. by field.
Qed.

Lemma reaching_unanimous (i : nat) (txs : list ID) (tx : ID) (v : bool)
    (qn : list ID → string → Opinions) (selectedNodes : list string) :
  txs !! i = Some tx → (∀ node, qn txs node = (λ _, v) <$> txs) →
  reaching i (map (qn txs) selectedNodes) = replicate (length selectedNodes) v.
Proof.
  intros Hi Hqn. induction selectedNodes as [|node nodes IH]; [done|].
  cbn [map length replicate]. unfold reaching in *. cbn [omap list_omap].
  by rewrite Hqn, list_lookup_fmap, Hi, IH.
Qed.

Lemma promote_loop_promotes (active0 : gmap ID (etaResult Q)) (txs : list TxOpinion)
    (st : context Q) (tx : ID) :
  tx ∈ TxHash <$> txs → active0 !! tx = None →
  ∃ o, activeTxs (foldl (promote active0) st txs) !! tx = Some (mkEtaResult (f_of_int (-1)) 0)
       ∧ opinionHistory (foldl (promote active0) st txs) !! tx = Some [o].
Proof.
  intros Hin Hnone. revert st. induction txs as [|[tx' o'] txs IH]; intros st.
  { by apply elem_of_nil in Hin. }
  cbn [foldl]. destruct (decide (tx' = tx)) as [->|Hne].
  - destruct (promote_loop_lookup active0 txs (promote active0 st (mkTxOpinion tx o')) tx)
      as [[-> ->]|(o & _ & _ & -> & ->)]; [|by exists o].
    unfold promote. cbn [TxHash Opinion]. rewrite Hnone.
    cbn [set_activeTxs set_opinionHistory activeTxs opinionHistory].
    exists o'. by rewrite !lookup_insert_eq.
  - apply IH. rewrite fmap_cons in Hin. cbn [TxHash] in Hin.
    by apply elem_of_cons in Hin as [->|Hin].
Qed.

Section Unanimous.
Context (w : collaborators) (v : bool) (tx : ID).
Context (st st' : context Q) (batch : list TxOpinion).
Hypothesis Hround : round w st = Done (batch, st').
Hypothesis Hwindow : valid_window (parameters st).
Hypothesis Hfanout : 0 < p_k (parameters st) ≤ max_int.
Hypothesis Hunanimous : unanimous v w.

(** After a round with unanimous peers, every tx of ActiveSet has the eta
    of [k] votes for [v]. *)
Lemma round_unanimous_eta :
  is_Some (activeTxs st' !! tx) →
  activeTxs st' !! tx = eta_of (replicate (Z.to_nat (p_k (parameters st))) v).
Proof.
  pose proof Hround as (st3 & etas & Hfin & Hetas & ->)%round_result.
  pose proof (parameters_finalized st (batch, st3) Hfin) as Hp3. cbn [snd] in Hp3.
  rewrite Hp3 in Hetas.
  cbn [set_activeTxs activeTxs]. rewrite storeEtas_lookup. intros Hactive.
  assert (is_Some (activeTxs st3 !! tx)) as Hactive3.
  { destruct (etas !! tx) as [eta|] eqn:Heta; [|done].
    apply elem_of_keys. eapply querySample_dom; [done|by exists eta]. }
  apply elem_of_keys, list_elem_of_lookup in Hactive3 as [i Hi].
  unfold querySample in Hetas.
  apply run_bind_Done in Hetas as (selectedNodes & Hchoose & Hetas).
  apply run_bind_Done in Hetas as (result & Hmerge & Hret). injection Hret as <-.
  unfold merge in Hmerge. rewrite merge_loop in Hmerge.
  destruct (decide (Forall _ (map (queryNode w (getActiveTxs st3)) selectedNodes))); [|done].
  injection Hmerge as <-. cbn [app].
  rewrite calculateEtas_lookup.
  rewrite (votes_on_responses tx (getActiveTxs st3) _ i (NoDup_fst_map_to_list _) Hi).
  destruct Hunanimous as [_ Hqn].
  rewrite (reaching_unanimous i (getActiveTxs st3) tx v (queryNode w) selectedNodes Hi)
    by (intros node; apply Hqn).
  apply choose_length in Hchoose. unfold len in Hchoose.
  replace (length selectedNodes) with (Z.to_nat (p_k (parameters st))) by lia.
  destruct (eta_of_unanimous (Z.to_nat (p_k (parameters st))) v) as (e & -> & _); [lia..|done].
Qed.

(** What the finalization of the round does with a tx that is in ActiveSet
    after the update, by its history. *)
Lemma round_by_history (history : Opinions) :
  is_Some (activeTxs (popTxs st) !! tx) →
  opinionHistory (updateOpinion (popTxs st)) !! tx = Some history →
  history ≠ [] → len history ≤ max_int →
  (stable (p_m (parameters st)) (p_l (parameters st)) history →
   ∀ o, last history = Some o → mkTxOpinion tx o ∈ batch)
  ∧ (¬ stable (p_m (parameters st)) (p_l (parameters st)) history →
     (tx ∉ TxHash <$> batch) ∧ opinionHistory st' !! tx = Some history
     ∧ is_Some (activeTxs st' !! tx)).
Proof.
  intros Hactive Hh Hne Hlen.
  pose proof Hround as (st3 & etas & Hfin & Hetas & ->)%round_result.
  destruct Hwindow as (Hm & Hl & Hml).
  destruct (updateOpinion_other_fields (popTxs st)) as (Hact2 & _ & Hp2 & _).
  destruct (popTxs_fields st) as (_ & Hp1 & _).
  destruct (isFinal_from1_spec history (p_m (parameters st)) (p_l (parameters st)))
    as (final & Hrun & Hiff); [done..|].
  pose proof Hfin as Hspec. apply getFinalizedTxs_spec in Hspec as (_ & _ & Hframe & _).
  unfold getFinalizedTxs in Hfin. apply run_bind_Done in Hfin as (acc & Hloop & Hret).
  injection Hret as Hbatch Hst3.
  apply getFinalizedTxs_loop_exact in Hloop as (new & Hnew & _ & _ & Hexact);
    [|apply NoDup_fst_map_to_list].
  cbn [fst snd app] in Hnew, Hexact. assert (new = batch) as -> by congruence.
  rewrite Hp2, Hp1 in Hexact. split.
  - intros Hstable o Ho. apply Hexact. rewrite Hh.
    change (default [] (Some history)) with history.
    split; [by rewrite elem_of_keys, Hact2|]. split; [by rewrite Hrun, (proj2 Hiff Hstable)|].
    pose proof (getLastOpinion_last history Hne Hlen) as Hlast. rewrite Ho in Hlast.
    by injection Hlast as <-.
  - intros Hnot.
    assert (tx ∉ TxHash <$> batch) as Hout.
    { intros ([tx' o] & Heq & Hin)%list_elem_of_fmap. cbn [TxHash] in Heq. subst tx'.
      apply Hexact in Hin as (_ & Hfinal & _). rewrite Hh in Hfinal.
      change (default [] (Some history)) with history in Hfinal.
      rewrite Hfinal in Hrun. injection Hrun as <-. by apply Hnot, Hiff. }
    split; [done|]. destruct (Hframe tx Hout) as [Hom3 Hact3].
    cbn [set_activeTxs opinionHistory activeTxs]. split; [by rewrite Hom3|].
    rewrite storeEtas_lookup. destruct (etas !! tx); [by eexists|].
    by rewrite Hact3, Hact2.
Qed.

(** The round that promotes a tx. *)
Lemma round_unanimous_promotion :
  tx ∈ TxHash <$> waitingTxs st → activeTxs st !! tx = None →
  ∃ o, (tx ∉ TxHash <$> batch) ∧ opinionHistory st' !! tx = Some (o :: replicate 0 v)
       ∧ activeTxs st' !! tx = eta_of (replicate (Z.to_nat (p_k (parameters st))) v).
Proof.
  intros Hwaiting Hnone.
  destruct (promote_loop_promotes (activeTxs st) (waitingTxs st) st tx Hwaiting Hnone)
    as (o & Hact1 & Hom1).
  assert (activeTxs (popTxs st) !! tx = Some (mkEtaResult (f_of_int (-1)) 0)) as Hact
    by exact Hact1.
  assert (opinionHistory (popTxs st) !! tx = Some [o]) as Hom by exact Hom1.
  destruct (round_by_history [o]) as [_ Hkept].
  - by rewrite Hact.
  - rewrite updateOpinion_history, Hact, Hom. reflexivity.
  - done.
  - vm_compute. discriminate.
  - destruct Hkept as (Hout & Hom' & Hact').
    + intros [Hlen _]. destruct Hwindow as (Hm & Hl & _).
      change (len [o]) with 1 in Hlen. lia.
    + exists o. split; [done|]. split; [done|]. by apply round_unanimous_eta.
Qed.

(** A later round of a tx whose rounds so far were all unanimous. *)
Lemma round_unanimous_step (o : bool) (j : nat) (e : etaResult Q) :
  moderate (parameters st) (tick_x (ctx_tick st)) →
  opinionHistory st !! tx = Some (o :: replicate j v) →
  activeTxs st !! tx = Some e →
  eta_of (replicate (Z.to_nat (p_k (parameters st))) v) = Some e →
  Z.of_nat j + 2 ≤ max_int →
  (Z.of_nat j + 1 < p_m (parameters st) + p_l (parameters st) →
     (tx ∉ TxHash <$> batch) ∧ opinionHistory st' !! tx = Some (o :: replicate (S j) v)
     ∧ activeTxs st' !! tx = Some e)
  ∧ (p_m (parameters st) + p_l (parameters st) ≤ Z.of_nat j + 1 →
     mkTxOpinion tx v ∈ batch).
Proof.
  intros (Ha0 & Ha1 & Hb0 & Hb1) Hom Hact He Hj.
  destruct (eta_of_unanimous (Z.to_nat (p_k (parameters st))) v) as (e' & He' & Hvalue & _);
    [lia..|].
  rewrite He in He'. injection He' as <-.
  destruct (popTxs_active st tx) as [Hact1 Hom1]; [by exists e|].
  destruct (popTxs_fields st) as (_ & Hp1 & Ht1).
  assert (opinionHistory (updateOpinion (popTxs st)) !! tx = Some (o :: replicate (S j) v))
    as Hom2.
  { rewrite updateOpinion_history, Hact1, Hom1, Hact, Hom. unfold updated.
    assert (f_neqb (value e) (f_of_int (-1)) = true) as ->.
    { cbn [f_neqb f_of_int exact]. apply negb_true_iff, not_true_iff_false.
      intros Heq%Qeq_bool_iff. rewrite Hvalue in Heq. by destruct v. }
    f_equal. rewrite replicate_S_end, app_comm_cons. f_equal. f_equal.
    unfold threshold. rewrite Hp1, Ht1.
    cbn [f_gtb exact]. destruct (len (o :: replicate j v) =? 1).
    - destruct v.
      + apply negb_true_iff, not_true_iff_false. intros Hle%Qle_bool_iff.
        rewrite Hvalue in Hle. by apply Qle_not_lt in Hle.
      + apply negb_false_iff, Qle_bool_iff. by rewrite Hvalue.
    - destruct v.
      + apply negb_true_iff, not_true_iff_false. intros Hle%Qle_bool_iff.
        rewrite Hvalue in Hle. by apply Qle_not_lt in Hle.
      + apply negb_false_iff, Qle_bool_iff. by rewrite Hvalue. }
  assert (len (o :: replicate (S j) v) = Z.of_nat j + 2) as Hlen.
  { unfold len. cbn [length]. rewrite length_replicate. lia. }
  destruct (round_by_history (o :: replicate (S j) v)) as [Hfinal Hkept];
    [by rewrite Hact1, Hact | done | done | lia |].
  destruct Hwindow as (Hm & Hl & Hml). split.
  - intros Hcool. destruct Hkept as (Hout & Hom' & Hact').
    + intros [Hlong _]. lia.
    + split; [done|]. split; [done|]. by rewrite round_unanimous_eta.
  - intros Hdone. apply Hfinal.
    + split; [lia|]. unfold last_entries. cbn [length]. rewrite length_replicate.
      replace (S (S j) - Z.to_nat (p_l (parameters st)))%nat
        with (S (S j - Z.to_nat (p_l (parameters st)))) by lia.
      cbn [drop]. rewrite drop_replicate.
      intros a b Ha%elem_of_replicate Hb%elem_of_replicate. destruct Ha as [-> _].
      by destruct Hb as [-> _].
    + change (o :: replicate (S j) v) with ([o] ++ replicate (S j) v).
      rewrite replicate_S_end, app_assoc. apply last_snoc.
Qed.

(** With unanimous peers and a consistent store, the round returns. *)
Lemma round_unanimous_returns (w0 : collaborators) (st0 : context Q) :
  unanimous v w0 → 0 < p_k (parameters st0) → valid_window (parameters st0) →
  store_consistent st0 →
  (∀ tx history, opinionHistory st0 !! tx = Some history → len history < max_int) →
  returns (round w0 st0).
Proof.
  intros [Hpeers Hqn] Hk Hwin [Hdom Hne] Hfit.
  destruct (phases_return st0) as [[batch0 st3] Hfin]; [|done|].
  { intros tx0 Hactive. apply Hdom in Hactive as [history Hh]. exists history.
    split; [done|]. split; [by eapply Hne|by eapply Hfit]. }
  unfold round. rewrite Hfin. cbn [run_bind fst snd].
  pose proof (parameters_finalized st0 (batch0, st3) Hfin) as Hp3. cbn [snd] in Hp3.
  rewrite Hp3.
  unfold querySample. rewrite choose_eq.
  replace (p_k (parameters st0) <? 0) with false by lia.
  replace (len (getKnownPeers w0) =? 0) with false; last first.
  { destruct (getKnownPeers w0); [done|]. rewrite len_cons.
    pose proof (len_nonneg l). lia. }
  rewrite andb_false_r. cbn [run_bind]. unfold merge. rewrite merge_loop.
  rewrite decide_True; [by eexists|].
  apply Forall_forall. intros votes (node & <- & _)%list_elem_of_In%in_map_iff.
  by rewrite Hqn, length_fmap.
Qed.
End Unanimous.

Lemma run_ticks_length {F : Type} `{!Float64 F} (evs : list (tick_event F)) (st st' : context F)
    (batches : list (list TxOpinion)) :
  run_ticks evs st = Done (batches, st') → length batches = length evs.
Proof.
  revert st batches. induction evs as [|ev evs IH]; intros st batches Hrun.
  - cbn in Hrun. by injection Hrun as <- <-.
  - cbn [run_ticks] in Hrun. apply run_bind_Done in Hrun as ([batch st1] & _ & Hrun).
    apply run_bind_Done in Hrun as ([batches' stn] & Hrest & Hdone).
    cbn [fst snd] in *. injection Hdone as <- <-. cbn [length]. f_equal. by eapply IH.
Qed.

Lemma round_history_length {F : Type} `{!Float64 F} (w : collaborators) (st st' : context F)
    (batch : list TxOpinion) (tx : ID) (history' : Opinions) :
  round w st = Done (batch, st') → opinionHistory st' !! tx = Some history' →
  len history' ≤ 2
  ∨ ∃ history, opinionHistory st !! tx = Some history ∧ len history' ≤ len history + 1.
Proof.
  intros (_ & _ & _ & Hom)%round_fields. rewrite Hom.
  destruct (decide (tx ∈ TxHash <$> batch)); [done|].
  rewrite updateOpinion_history. unfold updated.
  destruct (popTxs_lookup st tx) as [[-> ->]|(o & _ & _ & -> & ->)].
  - destruct (activeTxs st !! tx) as [eta|]; destruct (opinionHistory st !! tx) as [h|];
      try done.
    + destruct (f_neqb (value eta) (f_of_int (-1))); intros [= <-]; right; exists h.
      * split; [done|]. rewrite len_app, len_cons. unfold len. cbn [length]. lia.
      * split; [done|lia].
    + intros [= <-]. right. eexists. split; [done|lia].
  - cbn [value]. destruct (f_neqb _ _); intros [= <-]; left; vm_compute; discriminate.
Qed.

Lemma run_unanimous (v : bool) (tx : ID) (evs : list (tick_event Q)) :
  ∀ (st : context Q) (j : nat) (o : bool) (e : etaResult Q),
    0 < p_k (parameters st) ≤ max_int → valid_window (parameters st) → store_consistent st →
    (∀ tx history, opinionHistory st !! tx = Some history →
       len history + Z.of_nat (length evs) < max_int) →
    Z.of_nat (length evs) + 1 < max_int →
    Forall (λ ev, unanimous v (ev_world ev) ∧ moderate (parameters st) (ev_random ev)) evs →
    Z.of_nat (length evs) + Z.of_nat j = p_m (parameters st) + p_l (parameters st) →
    evs ≠ [] →
    opinionHistory st !! tx = Some (o :: replicate j v) → activeTxs st !! tx = Some e →
    eta_of (replicate (Z.to_nat (p_k (parameters st))) v) = Some e →
    ∃ early batch st', run_ticks evs st = Done (early ++ [batch], st')
      ∧ Forall (λ b, tx ∉ TxHash <$> b) early ∧ mkTxOpinion tx v ∈ batch ∧ retired tx st'.
Proof.
  induction evs as [|ev evs IH];
    intros st j o e Hk Hwin Hst Hfit Hticks Hevs Hleft Hne Hom Hact He; [done|].
  apply Forall_cons in Hevs as [[Hun Hmod] Hevs]. cbn [length] in Hfit, Hticks, Hleft.
  set (st_t := set_tick (newTick (ev_index ev) (ev_random ev)) st).
  assert (parameters st_t = parameters st) as Hpt by reflexivity.
  destruct (round_unanimous_returns v (ev_world ev) st_t) as [[batch1 st1] Hround];
    [done | by destruct Hk | done | done | |].
  { intros tx0 history Hh. specialize (Hfit tx0 history Hh). lia. }
  assert (Z.of_nat j + 2 ≤ max_int) as Hj.
  { specialize (Hfit tx _ Hom). rewrite len_cons in Hfit. unfold len in Hfit.
    rewrite length_replicate in Hfit. lia. }
  destruct (round_unanimous_step (ev_world ev) v tx st_t st1 batch1 Hround Hwin Hk Hun
              o j e Hmod Hom Hact He Hj) as [Hcool Hdone].
  rewrite Hpt in Hcool, Hdone.
  cbn [run_ticks]. unfold Tick. fold st_t. rewrite Hround. cbn [run_bind fst snd].
  destruct evs as [|ev2 evs'].
  - cbn [run_ticks run_bind fst snd]. exists [], batch1, st1. split; [done|].
    split; [constructor|]. cbn [length] in Hleft.
    assert (mkTxOpinion tx v ∈ batch1) as Hin by (apply Hdone; lia).
    split; [done|]. apply (round_retires _ _ _ _ tx Hround).
    apply list_elem_of_fmap. by exists (mkTxOpinion tx v).
  - destruct Hcool as (Hout & Hom1 & Hact1).
    { cbn [length] in *. lia. }
    pose proof (round_consistent _ _ _ _ Hround Hst) as Hst1.
    pose proof Hround as (_ & Hp1 & _)%round_fields. rewrite Hpt in Hp1.
    destruct (IH st1 (S j) o e) as (early & batch & st' & Hrun & Hearly & Hin & Hret).
    + by rewrite Hp1.
    + by rewrite Hp1.
    + done.
    + intros tx0 history' Hh'.
      destruct (round_history_length _ _ _ _ tx0 history' Hround Hh')
        as [Hshort|(history & Hh & Hle)]; [cbn [length] in *; lia|].
      specialize (Hfit tx0 history Hh). lia.
    + lia.
    + by rewrite Hp1.
    + rewrite Hp1. lia.
    + done.
    + done.
    + done.
    + by rewrite Hp1.
    + rewrite Hrun. cbn [run_bind fst snd]. exists (batch1 :: early), batch, st'.
      split; [done|]. split; [by constructor|done].
Qed.

(** X18: unanimity finalizes, and the cooldown bound is met exactly.  On the
    exact engine, with a fanout [k > 0], a valid cooldown and window, a
    consistent store, at least one peer, every node answering [v] for every
    tx it is asked about, and every random value putting both thresholds in
    [[0, 1)], [m + l + 1] ticks return, and a tx that was waiting and not
    active when they began is in none of the first [m + l] batches and is in
    the last one, finalized with [v], whatever its initial opinion, the
    draws of [choose] and the other txs are; after that it is retired. *)
Theorem unanimous_vote_finalizes (evs : list (tick_event Q)) (st : context Q) (tx : ID)
    (v : bool) :
  0 < p_k (parameters st) ≤ max_int → valid_window (parameters st) → store_consistent st →
  (∀ tx history, opinionHistory st !! tx = Some history →
     len history + Z.of_nat (length evs) < max_int) →
  Z.of_nat (length evs) + 1 < max_int →
  Forall (λ ev, unanimous v (ev_world ev) ∧ moderate (parameters st) (ev_random ev)) evs →
  Z.of_nat (length evs) = p_m (parameters st) + p_l (parameters st) + 1 →
  tx ∈ TxHash <$> waitingTxs st → activeTxs st !! tx = None →
  ∃ early batch st', run_ticks evs st = Done (early ++ [batch], st')
    ∧ length early = Z.to_nat (p_m (parameters st) + p_l (parameters st))
    ∧ Forall (λ b, tx ∉ TxHash <$> b) early ∧ mkTxOpinion tx v ∈ batch ∧ retired tx st'.
Proof.
  intros Hk Hwin Hst Hfit Hticks Hevs Hlen Hwaiting Hnone.
  destruct evs as [|ev evs]. { destruct Hwin as (? & ? & ?). cbn [length] in Hlen. lia. }
  apply Forall_cons in Hevs as [[Hun Hmod] Hevs]. cbn [length] in Hfit, Hticks, Hlen.
  set (st_t := set_tick (newTick (ev_index ev) (ev_random ev)) st).
  assert (parameters st_t = parameters st) as Hpt by reflexivity.
  destruct (round_unanimous_returns v (ev_world ev) st_t) as [[batch1 st1] Hround];
    [done | by destruct Hk | done | done | |].
  { intros tx0 history Hh. specialize (Hfit tx0 history Hh). lia. }
  destruct (round_unanimous_promotion (ev_world ev) v tx st_t st1 batch1 Hround Hwin Hk Hun
              Hwaiting Hnone) as (o & Hout & Hom1 & Hact1).
  rewrite Hpt in Hact1.
  destruct (eta_of_unanimous (Z.to_nat (p_k (parameters st))) v) as (e & He & _); [lia..|].
  rewrite He in Hact1.
  pose proof (round_consistent _ _ _ _ Hround Hst) as Hst1.
  pose proof Hround as (_ & Hp1 & _)%round_fields. rewrite Hpt in Hp1.
  destruct (run_unanimous v tx evs st1 0%nat o e)
    as (early & batch & st' & Hrun & Hearly & Hin & Hret).
  - by rewrite Hp1.
  - by rewrite Hp1.
  - done.
  - intros tx0 history' Hh'.
    destruct (round_history_length _ _ _ _ tx0 history' Hround Hh')
      as [Hshort|(history & Hh & Hle)]; [lia|].
    specialize (Hfit tx0 history Hh). lia.
  - lia.
  - by rewrite Hp1.
  - rewrite Hp1. lia.
  - destruct Hwin as (? & ? & ?). intros ->. cbn [length] in Hlen. lia.
  - done.
  - done.
  - by rewrite Hp1.
  - cbn [run_ticks]. unfold Tick. fold st_t. rewrite Hround. cbn [run_bind fst snd].
    rewrite Hrun. cbn [run_bind fst snd]. exists (batch1 :: early), batch, st'.
    split; [done|]. split; [|split; [by constructor|done]].
    apply run_ticks_length in Hrun. rewrite length_app in Hrun. cbn [length] in Hrun |- *. lia.
Qed.

Lemma unanimous_vote_finalizes_witness :
  ∃ early batch st', run_ticks (replicate 6 tick_S1) submitted_S1 = Done (early ++ [batch], st')
    ∧ length early = Z.to_nat (p_m (parameters submitted_S1) + p_l (parameters submitted_S1))
    ∧ Forall (λ b, "T"%string ∉ TxHash <$> b) early ∧ mkTxOpinion "T" Like ∈ batch
    ∧ retired "T"%string st'.
Proof.
  apply (unanimous_vote_finalizes (replicate 6 tick_S1) submitted_S1 "T"%string Like).
  - vm_compute. split; [reflexivity|discriminate].
  - vm_compute. repeat split; discriminate.
  - split.
    + intros tx. cbn. by rewrite !lookup_empty.
    + intros tx history. cbn. by rewrite lookup_empty.
  - intros tx history. cbn. by rewrite lookup_empty.
  - vm_compute. reflexivity.
  - apply Forall_replicate. split.
    + split; [discriminate|]. intros txs node. reflexivity.
    + vm_compute. repeat split; discriminate.
  - vm_compute. reflexivity.
  - cbn. apply list_elem_of_here.
  - reflexivity.
Defined.

(** ** Finalization and resubmission *)

Lemma filter_none {A} (P : A → Prop) `{∀ x, Decision (P x)} (l : list A) :
  (∀ x, x ∈ l → ¬ P x) → filter P l = [].
Proof.
  induction l as [|a l IH]; intros Hl; [done|]. rewrite filter_cons.
  rewrite decide_False by (apply Hl; by left). apply IH. intros x Hx. apply Hl. by right.
Qed.

Lemma count_NoDup {A B} `{EqDecision B} (f : A → B) (l : list A) (b : B) :
  NoDup (f <$> l) → (length (filter (λ x, f x = b) l) ≤ 1)%nat.
Proof.
  induction l as [|a l IH]; [cbn; lia|]. rewrite fmap_cons. intros [Ha Hl]%NoDup_cons.
  rewrite filter_cons. destruct (decide (f a = b)) as [<-|Hne]; [|by apply IH].
  cbn [length]. rewrite filter_none; [done|].
  intros x Hx Heq. apply Ha, list_elem_of_fmap. by exists x.
Qed.

Lemma count_absent (tx : ID) (batches : list (list TxOpinion)) :
  Forall (λ batch, tx ∉ TxHash <$> batch) batches →
  filter (λ vote, TxHash vote = tx) (mjoin batches) = [].
Proof.
  intros Hall. apply filter_none. intros vote Hvote Heq.
  apply list_elem_of_join in Hvote as (batch & Hvote & Hbatch).
  rewrite Forall_forall in Hall. apply (Hall batch Hbatch), list_elem_of_fmap. by exists vote.
Qed.

Section Resubmission.
Context {F : Type} `{!Float64 F}.

(** A round does not bring a forgotten tx back. *)
Lemma round_keeps_forgotten (w : collaborators) (st st' : context F) (batch : list TxOpinion)
    (tx : ID) :
  forgotten tx st → round w st = Done (batch, st') →
  (tx ∉ TxHash <$> batch) ∧ forgotten tx st'.
Proof.
  intros (Hwaiting & Hact & Hom) Hround.
  pose proof Hround as (Hw' & _)%round_fields.
  apply round_result in Hround as (st3 & etas & Hfin & Hetas & ->).
  assert (activeTxs (popTxs st) !! tx = None ∧ opinionHistory (popTxs st) !! tx = None)
    as [Hact1 Hom1].
  { destruct (popTxs_lookup st tx) as [[-> ->]|(o & Hin & _)]; [done|].
    exfalso. apply Hwaiting, list_elem_of_fmap. by exists (mkTxOpinion tx o). }
  apply getFinalizedTxs_spec in Hfin as (Hactive & _ & Hframe & _).
  destruct (updateOpinion_other_fields (popTxs st)) as (Hact2 & _).
  assert (tx ∉ TxHash <$> batch) as Hnot.
  { intros Hin. apply Hactive in Hin as [eta Hin]. by rewrite Hact2, Hact1 in Hin. }
  split; [done|]. destruct (Hframe tx Hnot) as [Hom3 Hact3].
  rewrite updateOpinion_history, Hact1, Hom1 in Hom3. rewrite Hact2, Hact1 in Hact3.
  split; [|split; [|done]].
  - rewrite Hw'. by intros ?%elem_of_nil.
  - cbn [set_activeTxs activeTxs].
    by rewrite storeEtas_lookup, (not_sampled w st3 etas tx Hetas Hact3).
Qed.

Lemma run_calls_keeps_forgotten (calls : list (call F)) (st st' : context F)
    (batches : list (list TxOpinion)) (tx : ID) :
  forgotten tx st → (∀ txs, Submit txs ∈ calls → tx ∉ TxHash <$> txs) →
  run_calls calls st = Done (batches, st') →
  Forall (λ batch, tx ∉ TxHash <$> batch) batches.
Proof.
  revert st batches. induction calls as [|[txs|ev] calls IH]; intros st batches Hgone Hsub Hrun.
  - cbn in Hrun. by injection Hrun as <- <-.
  - cbn [run_calls] in Hrun. apply (IH _ _) in Hrun; [done| |].
    + destruct Hgone as (Hwaiting & Hact & Hom). split; [|done].
      unfold SubmitTxsForVoting, pushTxs. cbn [set_waitingTxs waitingTxs].
      rewrite fmap_app, elem_of_app. intros [?|Hin]; [done|].
      by apply (Hsub txs); [left|].
    + intros txs' Hin. apply Hsub. by right.
  - cbn [run_calls] in Hrun. apply run_bind_Done in Hrun as ([batch st1] & Htick & Hrun).
    apply run_bind_Done in Hrun as ([batches' stn] & Hrest & Hdone).
    cbn [fst snd] in *. injection Hdone as <- <-. unfold Tick in Htick.
    destruct (round_keeps_forgotten (ev_world ev)
                (set_tick (newTick (ev_index ev) (ev_random ev)) st) st1 batch tx
                Hgone Htick) as [Hnot Hgone1].
    constructor; [done|]. apply (IH st1); [done| |done].
    intros txs' Hin. apply Hsub. by right.
Qed.

(** X19: whatever the host calls, a tx that is not submitted during the
    calls is finalized at most once by them: over all the batches, its hash
    occurs at most once.  The engine keeps no record of a finalized tx; only
    a new submission can bring it back. *)
Theorem finalized_once_unless_resubmitted (calls : list (call F)) (st st' : context F)
    (batches : list (list TxOpinion)) (tx : ID) :
  run_calls calls st = Done (batches, st') →
  (∀ txs, Submit txs ∈ calls → tx ∉ TxHash <$> txs) →
  (length (filter (λ vote, TxHash vote = tx) (mjoin batches)) ≤ 1)%nat.
Proof.
  revert st batches. induction calls as [|[txs|ev] calls IH]; intros st batches Hrun Hsub.
  - cbn in Hrun. injection Hrun as <- <-. cbn. lia.
  - cbn [run_calls] in Hrun. apply (IH _ _ Hrun). intros txs' Hin. apply Hsub. by right.
  - cbn [run_calls] in Hrun. apply run_bind_Done in Hrun as ([batch st1] & Htick & Hrun).
    apply run_bind_Done in Hrun as ([batches' stn] & Hrest & Hdone).
    cbn [fst snd] in *. injection Hdone as <- <-. unfold Tick in Htick.
    change (mjoin (batch :: batches')) with (batch ++ mjoin batches').
    rewrite filter_app, length_app.
    assert (∀ txs, Submit txs ∈ calls → tx ∉ TxHash <$> txs) as Hsub'.
    { intros txs' Hin. apply Hsub. by right. }
    destruct (decide (tx ∈ TxHash <$> batch)) as [Hin|Hnot].
    + pose proof (round_retires _ _ _ _ tx Htick Hin) as (Hw & Hact & Hom).
      assert (forgotten tx st1) as Hgone.
      { split; [|done]. rewrite Hw. by intros ?%elem_of_nil. }
      rewrite (count_absent tx batches')
        by (by eapply run_calls_keeps_forgotten).
      pose proof (count_NoDup TxHash batch tx (round_batch_NoDup _ _ _ _ Htick)).
      cbn [length]. lia.
    + assert (filter (λ vote, TxHash vote = tx) batch = []) as ->.
      { apply filter_none. intros vote Hvote Heq.
        apply Hnot, list_elem_of_fmap. by exists vote. }
      cbn [length]. by apply (IH st1 batches').
Qed.
End Resubmission.

Lemma finalized_once_unless_resubmitted_witness :
  (length (filter (λ vote, TxHash vote = "T"%string)
             (mjoin [[]; []; []; []; []; [mkTxOpinion "T" Like]])) ≤ 1)%nat.
Proof.
  apply (finalized_once_unless_resubmitted calls_S1_and_U submitted_S1 after_S1_and_U).
  - vm_compute. reflexivity.
  - intros txs Hin. unfold calls_S1_and_U in Hin. cbn [replicate] in Hin.
    elem_cases Hin; try discriminate. injection Hin as ->.
    intros Hin. elem_cases Hin. discriminate.
Defined.
